(** * solana-swap-go: the swap submitter

    A shallow embedding of [GetSwapInstructions] and
    [sendAndConfirmTransaction] of package [solanatracker], with the
    properties of the quote query string and of the submit-and-confirm
    loop.

    The node, the HTTP client, the JSON decoder and the float formatter
    belong to external packages ([solana-go/rpc], [net/http],
    [encoding/json], [fmt]); they appear here as the answers they give,
    supplied by the environment. *)

From Stdlib Require Import ZArith String Ascii List Bool Lia Arith.
From Equations Require Import Equations.
Import ListNotations.

Open Scope string_scope.
Open Scope list_scope.
Open Scope Z_scope.

(** ** Data model *)

(** [time.Duration]: a signed 64-bit count of nanoseconds. *)
Definition Duration := Z.

Definition Millisecond : Duration := 1000000.

(** [rpc.CommitmentType] and [rpc.ConfirmationStatusType] are string
    types of the SDK; their constants are the lower-case level names. *)
Definition CommitmentType := string.
Definition ConfirmationStatusType := string.

Definition CommitmentProcessed : CommitmentType := "processed".
Definition CommitmentConfirmed : CommitmentType := "confirmed".
Definition CommitmentFinalized : CommitmentType := "finalized".

Definition ConfirmationStatusProcessed : ConfirmationStatusType := "processed".
Definition ConfirmationStatusConfirmed : ConfirmationStatusType := "confirmed".
Definition ConfirmationStatusFinalized : ConfirmationStatusType := "finalized".

(** Go compares strings byte by byte, lexicographically; [a >= b] on a
    string type is that order. *)
Definition string_ge (a b : string) : bool := String.leb b a.

(** [solana.Signature], [*solana.Transaction] and the errors of the RPC
    client are opaque to this package. *)
Definition Signature := string.
Definition Transaction := string.
Definition RpcError := string.
Definition TxError := string.

(** [rpc.TransactionOpts], the fields this package sets. *)
Record TransactionOpts := {
  SkipPreflight : bool;
  PreflightCommitment : CommitmentType;
  MaxRetries : option N
}.

Record SwapOptions := {
  SendOptions : TransactionOpts;
  ConfirmationRetries : Z;
  ConfirmationRetryTimeout : Duration;
  LastValidBlockHeightBuffer : N;
  Commitment : CommitmentType;
  ResendInterval : Duration;
  ConfirmationCheckInterval : Duration;
  SkipConfirmationCheck : bool
}.

(** [rpc.SignatureStatusesResult]: [Err] is nil when the transaction
    succeeded. *)
Record SignatureStatusesResult := {
  Slot : N;
  Confirmations : option N;
  Err : option TxError;
  ConfirmationStatus : ConfirmationStatusType
}.

(** [rpc.GetSignatureStatusesResult]: one entry per queried signature,
    nil for a signature the node does not know. *)
Record GetSignatureStatusesResult := {
  Value : list (option SignatureStatusesResult)
}.

(** ** The node and the calls made to it *)

(** The calls the function makes, in the order it makes them. *)
Inductive Call :=
| CallSend (tx : Transaction) (opts : TransactionOpts)
| CallStatus (sig : Signature)
| CallSleep (d : Duration).

(** What the node answers: to a submission, and to the [j]-th status
    query ([j] counted from 0). *)
Record Node := {
  onSend : Transaction -> TransactionOpts -> RpcError + Signature;
  onStatus : nat -> RpcError + GetSignatureStatusesResult
}.

(** The state threaded through a run: how many status queries were
    answered, and the calls made so far. *)
Record Run := {
  queries : nat;
  calls : list Call
}.

Definition start : Run := {| queries := 0; calls := [] |}.

Definition M (A : Type) : Type := Run -> A * Run.

Definition ret {A} (a : A) : M A := fun s => (a, s).

Definition bind {A B} (m : M A) (k : A -> M B) : M B :=
  fun s => let (a, s') := m s in k a s'.

Notation "x <- m ;; k" := (bind m (fun x => k))
  (at level 61, m at next level, right associativity).
Notation "m ;;; k" := (bind m (fun _ => k))
  (at level 61, right associativity).

Definition record (c : Call) (s : Run) : Run :=
  {| queries := queries s; calls := calls s ++ [c] |}.

Definition SendTransactionWithOpts (node : Node) (tx : Transaction)
    (opts : TransactionOpts) : M (RpcError + Signature) :=
  fun s => (onSend node tx opts, record (CallSend tx opts) s).

Definition GetSignatureStatuses (node : Node) (sig : Signature)
    : M (RpcError + GetSignatureStatusesResult) :=
  fun s => (onStatus node (queries s),
            {| queries := S (queries s);
               calls := calls s ++ [CallStatus sig] |}).

Definition Sleep (d : Duration) : M unit :=
  fun s => (tt, record (CallSleep d) s).

(** ** sendAndConfirmTransaction *)

(** The errors the function builds, by their message. *)
Inductive SwapError :=
| ErrSending (cause : RpcError)        (* error sending transaction: %w *)
| ErrGettingStatus (cause : RpcError)  (* error getting signature status: %w *)
| ErrTransactionFailed (e : TxError)   (* transaction failed: %v *)
| ErrTimedOut.                         (* transaction confirmation timed out *)

(** How a call ends: [return sig, nil], [return solana.Signature{}, err],
    or the run-time panic of indexing an empty [status.Value]. *)
Inductive Outcome :=
| Returned (sig : Signature)
| Failed (e : SwapError)
| Panicked.

(** One pass through the loop body either leaves the function or falls
    through to the next iteration. *)
Inductive Step :=
| Exit (r : Outcome)
| Next.

Section SendAndConfirm.

Variable node : Node.
Variable tx : Transaction.
Variable options : SwapOptions.

(** The body of the [for] loop (lines 276-295). *)
Definition iteration (sig : Signature) : M Step :=
  status <- GetSignatureStatuses node sig ;;
  match status with
  | inl err => ret (Exit (Failed (ErrGettingStatus err)))
  | inr status =>
      match Value status with
      | [] => ret (Exit Panicked)
      | Some st :: _ =>
          match Err st with
          | Some e => ret (Exit (Failed (ErrTransactionFailed e)))
          | None =>
              if string_ge (ConfirmationStatus st) ConfirmationStatusFinalized
              then ret (Exit (Returned sig))
              else Sleep (ConfirmationCheckInterval options) ;;; ret Next
          end
      | None :: _ =>
          Sleep (ConfirmationCheckInterval options) ;;; ret Next
      end
  end.

(** [for i := 0; i < options.ConfirmationRetries; i++ { ... }] followed
    by the time-out return. *)
Equations? confirmLoop (sig : Signature) (i : Z) (s : Run) : Outcome * Run
  by wf (Z.to_nat (ConfirmationRetries options - i)) lt :=
  confirmLoop sig i s with Z_lt_dec i (ConfirmationRetries options) := {
    | right _ => (Failed ErrTimedOut, s)
    | left _ with iteration sig s := {
        | (Exit r, s') => (r, s')
        | (Next, s') => confirmLoop sig (i + 1) s' } }.
Proof. lia. Qed.

Definition sendAndConfirmTransaction : M Outcome :=
  sent <- SendTransactionWithOpts node tx (SendOptions options) ;;
  match sent with
  | inl err => ret (Failed (ErrSending err))
  | inr sig =>
      if SkipConfirmationCheck options then ret (Returned sig)
      else confirmLoop sig 0
  end.

End SendAndConfirm.

(** What a caller and the node observe of one invocation. *)
Definition run (node : Node) (tx : Transaction) (options : SwapOptions)
    : Outcome * Run :=
  sendAndConfirmTransaction node tx options start.

Definition isStatus (c : Call) : bool :=
  match c with CallStatus _ => true | _ => false end.

Definition isSend (c : Call) : bool :=
  match c with CallSend _ _ => true | _ => false end.

Definition polls (cs : list Call) : nat := length (filter isStatus cs).
Definition sends (cs : list Call) : nat := length (filter isSend cs).

(** The total time the run asked to sleep. *)
Fixpoint slept (cs : list Call) : Duration :=
  match cs with
  | [] => 0
  | CallSleep d :: cs' => d + slept cs'
  | _ :: cs' => slept cs'
  end.

(** The answers on which the loop body falls through to its [Sleep]:
    an unknown signature, or a status without error whose level fails
    the comparison of line 288. *)
Definition keepsPolling (a : RpcError + GetSignatureStatusesResult) : bool :=
  match a with
  | inr res =>
      match Value res with
      | None :: _ => true
      | Some st :: _ =>
          match Err st with
          | None => negb (string_ge (ConfirmationStatus st) ConfirmationStatusFinalized)
          | Some _ => false
          end
      | [] => false
      end
  | inl _ => false
  end.

(** One poll and the sleep that follows it. *)
Definition round (sig : Signature) (d : Duration) : list Call :=
  [CallStatus sig; CallSleep d].

Definition rounds (sig : Signature) (d : Duration) (m : nat) : list Call :=
  concat (repeat (round sig d) m).

Definition outcome (node : Node) (tx : Transaction) (options : SwapOptions)
    : Outcome :=
  fst (run node tx options).

Definition trace (node : Node) (tx : Transaction) (options : SwapOptions)
    : list Call :=
  calls (snd (run node tx options)).

Definition pollCount (node : Node) (tx : Transaction) (options : SwapOptions)
    : nat :=
  polls (trace node tx options).

(** The state in which the loop is entered. *)
Definition sent (tx : Transaction) (options : SwapOptions) : Run :=
  {| queries := 0; calls := [CallSend tx (SendOptions options)] |}.

(** ** net/url: query values and their encoding *)

(** [shouldEscape(c, encodeQueryComponent)]: letters, digits and the
    marks [-_.~] pass; every other byte is escaped. *)
Definition isAlnum (c : ascii) : bool :=
  let n := N_of_ascii c in
  (((97 <=? n) && (n <=? 122)) || ((65 <=? n) && (n <=? 90)) ||
   ((48 <=? n) && (n <=? 57)))%N.

Definition shouldEscape (c : ascii) : bool :=
  if isAlnum c then false
  else if ((c =? "-") || (c =? "_") || (c =? ".") || (c =? "~"))%char then false
  else true.

Definition upperhex : string := "0123456789ABCDEF".

(** [upperhex[i]] *)
Definition hexDigit (i : N) : ascii :=
  match String.get (N.to_nat i) upperhex with
  | Some c => c
  | None => zero
  end.

(** What [escape] writes for one byte in mode [encodeQueryComponent]. *)
Definition escapeByte (c : ascii) : string :=
  if (c =? " ")%char then "+"
  else if shouldEscape c then
    String "%" (String (hexDigit (N.shiftr (N_of_ascii c) 4))
               (String (hexDigit (N.land (N_of_ascii c) 15)) ""))
  else String c "".

Fixpoint QueryEscape (s : string) : string :=
  match s with
  | EmptyString => ""
  | String c s' => (escapeByte c ++ QueryEscape s')%string
  end.

(** [url.Values]: the values added under each key, in the order they
    were added.  The keys of the Go map have no order; [Encode] sorts
    them. *)
Definition Values := list (string * list string).

(** [v.Add(key, value)]: [v[key] = append(v[key], value)]. *)
Fixpoint Add (key value : string) (v : Values) : Values :=
  match v with
  | [] => [(key, [value])]
  | (k, vs) :: rest =>
      if (k =? key)%string then (k, vs ++ [value]) :: rest
      else (k, vs) :: Add key value rest
  end.

(** [v[key]] *)
Fixpoint Get (key : string) (v : Values) : list string :=
  match v with
  | [] => []
  | (k, vs) :: rest => if (k =? key)%string then vs else Get key rest
  end.

Fixpoint insertKey (k : string) (ks : list string) : list string :=
  match ks with
  | [] => [k]
  | k' :: ks' => if String.leb k k' then k :: ks else k' :: insertKey k ks'
  end.

(** [slices.Sort(keys)] *)
Definition sortKeys (ks : list string) : list string :=
  fold_right insertKey [] ks.

(** The inner loop of [Encode]: one [key=value] per value, joined to
    what the buffer already holds by [&]. *)
Fixpoint encodeValues (buf keyEscaped : string) (vs : list string) : string :=
  match vs with
  | [] => buf
  | v :: vs' =>
      let buf := if (String.length buf =? 0)%nat then buf else (buf ++ "&")%string in
      encodeValues (buf ++ keyEscaped ++ "=" ++ QueryEscape v)%string keyEscaped vs'
  end.

Fixpoint encodeKeys (buf : string) (v : Values) (keys : list string) : string :=
  match keys with
  | [] => buf
  | k :: keys' => encodeKeys (encodeValues buf (QueryEscape k) (Get k v)) v keys'
  end.

Definition Encode (v : Values) : string :=
  encodeKeys "" v (sortKeys (map fst v)).

(** ** net/url: the decoding side

    [QueryUnescape] and [ParseQuery] are what the receiver of the
    request applies; they say what a correctly encoded query is. *)

Definition between (lo hi : ascii) (c : ascii) : bool :=
  ((N_of_ascii lo <=? N_of_ascii c) && (N_of_ascii c <=? N_of_ascii hi))%N.

Definition ishex (c : ascii) : bool :=
  between "0" "9" c || between "a" "f" c || between "A" "F" c.

Definition unhex (c : ascii) : N :=
  if between "0" "9" c then N_of_ascii c - N_of_ascii "0"
  else if between "a" "f" c then N_of_ascii c - N_of_ascii "a" + 10
  else if between "A" "F" c then N_of_ascii c - N_of_ascii "A" + 10
  else 0.

(** [unescape(s, encodeQueryComponent)]; [None] is the [EscapeError]. *)
Fixpoint QueryUnescape (s : string) : option string :=
  match s with
  | EmptyString => Some ""
  | String c rest =>
      if (c =? "%")%char then
        match rest with
        | String h (String l rest') =>
            if ishex h && ishex l then
              option_map
                (String (ascii_of_N (N.lor (N.shiftl (unhex h) 4) (unhex l))))
                (QueryUnescape rest')
            else None
        | _ => None
        end
      else if (c =? "+")%char then option_map (String " ") (QueryUnescape rest)
      else option_map (String c) (QueryUnescape rest)
  end.

(** [strings.Cut(s, sep)] for a separator of one byte. *)
Fixpoint Cut (sep : ascii) (s : string) : string * string * bool :=
  match s with
  | EmptyString => ("", "", false)
  | String c s' =>
      if (c =? sep)%char then ("", s', true)
      else let '(before, after, found) := Cut sep s' in (String c before, after, found)
  end.

Fixpoint containsByte (sep : ascii) (s : string) : bool :=
  match s with
  | EmptyString => false
  | String c s' => (c =? sep)%char || containsByte sep s'
  end.

(** The pieces between the [&] of a query. *)
Fixpoint segments (s : string) : list string :=
  match s with
  | EmptyString => [""]
  | String c s' =>
      if (c =? "&")%char then "" :: segments s'
      else match segments s' with
           | seg :: segs => String c seg :: segs
           | [] => [String c ""]
           end
  end.

(** One turn of the loop of [parseQuery]. *)
Definition parseSegment (m : option Values) (seg : string) : option Values :=
  match m with
  | None => None
  | Some m =>
      if containsByte ";" seg then None
      else if (String.length seg =? 0)%nat then Some m
      else
        let '(key, value, _) := Cut "=" seg in
        match QueryUnescape key, QueryUnescape value with
        | Some key, Some value => Some (Add key value m)
        | _, _ => None
        end
  end.

(** [url.ParseQuery]; [None] when it reports an error. *)
Definition ParseQuery (query : string) : option Values :=
  fold_left parseSegment (segments query) (Some []).

(** ** GetSwapInstructions *)

Record SolanaTracker := {
  BaseURL : string;
  RPC : string;
  Keypair : string
}.

Definition NewSolanaTracker (keypair rpcURL : string) : SolanaTracker :=
  {| BaseURL := "https://swap-v2.solanatracker.io";
     RPC := rpcURL;
     Keypair := keypair |}.

Record SwapResponse := {
  Txn : string;
  ForceLegacy : bool
}.

(** [strconv.FormatBool] *)
Definition FormatBool (b : bool) : string :=
  if b then "true" else "false".

(** The errors of [GetSwapInstructions], by their message. *)
Inductive QuoteError :=
| ErrFetching (cause : string)   (* error fetching swap instructions: %w *)
| ErrDecoding (cause : string).  (* error decoding swap response: %w *)

Section Quote.

(** [float64] and [fmt.Sprintf("%f", x)]. *)
Variable float64 : Type.
Variable Sprintf_f : float64 -> string.

(** [http.Get(url)]: an error or the body of the response. *)
Variable httpGet : string -> string + string.

(** [json.NewDecoder(body).Decode(&swapResp)] on a zero [SwapResponse]. *)
Variable jsonDecode : string -> string + SwapResponse.

(** Lines 86-95: the query parameters. *)
Definition swapParams (fromToken toToken : string) (fromAmount slippage : float64)
    (payer : string) (priorityFee : option float64) (forceLegacy : bool)
    : Values :=
  let params : Values := [] in
  let params := Add "from" fromToken params in
  let params := Add "to" toToken params in
  let params := Add "fromAmount" (Sprintf_f fromAmount) params in
  let params := Add "slippage" (Sprintf_f slippage) params in
  let params := Add "payer" payer params in
  let params := Add "forceLegacy" (FormatBool forceLegacy) params in
  match priorityFee with
  | Some fee => Add "priorityFee" (Sprintf_f fee) params
  | None => params
  end.

(** The query string of the request. *)
Definition swapQuery (fromToken toToken : string) (fromAmount slippage : float64)
    (payer : string) (priorityFee : option float64) (forceLegacy : bool)
    : string :=
  Encode (swapParams fromToken toToken fromAmount slippage payer
            priorityFee forceLegacy).

Definition GetSwapInstructions (st : SolanaTracker)
    (fromToken toToken : string) (fromAmount slippage : float64)
    (payer : string) (priorityFee : option float64) (forceLegacy : bool)
    : QuoteError + SwapResponse :=
  let url := (BaseURL st ++ "/swap?" ++
              swapQuery fromToken toToken fromAmount slippage payer
                priorityFee forceLegacy)%string in
  match httpGet url with
  | inl err => inl (ErrFetching err)
  | inr body =>
      match jsonDecode body with
      | inl err => inl (ErrDecoding err)
      | inr swapResp =>
          inr {| Txn := Txn swapResp; ForceLegacy := forceLegacy |}
      end
  end.

End Quote.

(** ** Reading the query string *)

(** [key=value], both escaped. *)
Definition encodePair (kv : string * string) : string :=
  (QueryEscape (fst kv) ++ "=" ++ QueryEscape (snd kv))%string.

(** Pieces joined by [&]. *)
Fixpoint joinAmp (pieces : list string) : string :=
  match pieces with
  | [] => ""
  | [piece] => piece
  | piece :: pieces' => (piece ++ "&" ++ joinAmp pieces')%string
  end.

(** The bytes that structure a query. *)
Definition isSeparator (sep : ascii) : Prop :=
  sep = "&"%char \/ sep = "="%char \/ sep = ";"%char.

(** The values in which every listed key holds its one value. *)
Definition once (fields : list (string * string)) : Values :=
  map (fun kv => (fst kv, [snd kv])) fields.

Section QuoteFields.

Variable float64 : Type.
Variable Sprintf_f : float64 -> string.

(** The fields of a request and the text of their values, in the order
    of their keys: the flag as the word [true] or [false], the tokens
    and the payer as they are, the floats as [Sprintf_f] writes
    them. *)
Definition swapFields (fromToken toToken : string) (fromAmount slippage : float64)
    (payer : string) (priorityFee : option float64) (forceLegacy : bool)
    : list (string * string) :=
  [("forceLegacy", if forceLegacy then "true" else "false");
   ("from", fromToken);
   ("fromAmount", Sprintf_f fromAmount);
   ("payer", payer)]
  ++ match priorityFee with
     | Some fee => [("priorityFee", Sprintf_f fee)]
     | None => []
     end
  ++ [("slippage", Sprintf_f slippage);
      ("to", toToken)].

End QuoteFields.

(** A quoting service that answers every request with the same body,
    decoded to [swapResp]. *)
Definition answering (body : string) : string -> string + string :=
  fun _ => inr body.

Definition decodingTo (swapResp : SwapResponse) : string -> string + SwapResponse :=
  fun _ => inr swapResp.

(** ** Notions the properties are stated with *)

(** Options that differ from [options] in the three bounds only. *)
Definition withBounds (options : SwapOptions) (timeout : Duration)
    (buffer : N) (resend : Duration) : SwapOptions :=
  {| SendOptions := SendOptions options;
     ConfirmationRetries := ConfirmationRetries options;
     ConfirmationRetryTimeout := timeout;
     LastValidBlockHeightBuffer := buffer;
     Commitment := Commitment options;
     ResendInterval := resend;
     ConfirmationCheckInterval := ConfirmationCheckInterval options;
     SkipConfirmationCheck := SkipConfirmationCheck options |}.

(** Options that differ from [options] in the required commitment only. *)
Definition withCommitment (options : SwapOptions) (c : CommitmentType)
    : SwapOptions :=
  {| SendOptions := SendOptions options;
     ConfirmationRetries := ConfirmationRetries options;
     ConfirmationRetryTimeout := ConfirmationRetryTimeout options;
     LastValidBlockHeightBuffer := LastValidBlockHeightBuffer options;
     Commitment := c;
     ResendInterval := ResendInterval options;
     ConfirmationCheckInterval := ConfirmationCheckInterval options;
     SkipConfirmationCheck := SkipConfirmationCheck options |}.

(** The order of the commitment levels in the words of the
    specification: processed < confirmed < finalized. *)
Definition levelRank (level : string) : nat :=
  if (level =? "processed")%string then 1
  else if (level =? "confirmed")%string then 2
  else if (level =? "finalized")%string then 3
  else 0.

(** A status level at or above the required commitment, in that order. *)
Definition atOrAbove (status : ConfirmationStatusType)
    (required : CommitmentType) : bool :=
  (levelRank required <=? levelRank status)%nat.

(** An answer that reports a transaction-level error or a level that
    passes the comparison of line 288. *)
Definition decisive (a : RpcError + GetSignatureStatusesResult) : bool :=
  match a with
  | inr res =>
      match Value res with
      | Some st :: _ =>
          match Err st with
          | Some _ => true
          | None => string_ge (ConfirmationStatus st) ConfirmationStatusFinalized
          end
      | _ => false
      end
  | inl _ => false
  end.

(** ** Sample options and nodes *)

(** The options of [example.go]. *)
Definition exampleOptions : SwapOptions :=
  {| SendOptions := {| SkipPreflight := true;
                       PreflightCommitment := "";
                       MaxRetries := Some 5%N |};
     ConfirmationRetries := 50;
     ConfirmationRetryTimeout := 1000 * Millisecond;
     LastValidBlockHeightBuffer := 200;
     Commitment := CommitmentProcessed;
     ResendInterval := 1500 * Millisecond;
     ConfirmationCheckInterval := 100 * Millisecond;
     SkipConfirmationCheck := false |}.

(** Three retries, 100ms apart, for a required commitment. *)
Definition threeRetries (required : CommitmentType) : SwapOptions :=
  {| SendOptions := SendOptions exampleOptions;
     ConfirmationRetries := 3;
     ConfirmationRetryTimeout := 1000 * Millisecond;
     LastValidBlockHeightBuffer := 200;
     Commitment := required;
     ResendInterval := 1500 * Millisecond;
     ConfirmationCheckInterval := 100 * Millisecond;
     SkipConfirmationCheck := false |}.

Definition withRetries (options : SwapOptions) (n : Z) : SwapOptions :=
  {| SendOptions := SendOptions options;
     ConfirmationRetries := n;
     ConfirmationRetryTimeout := ConfirmationRetryTimeout options;
     LastValidBlockHeightBuffer := LastValidBlockHeightBuffer options;
     Commitment := Commitment options;
     ResendInterval := ResendInterval options;
     ConfirmationCheckInterval := ConfirmationCheckInterval options;
     SkipConfirmationCheck := SkipConfirmationCheck options |}.

Definition withSkip (options : SwapOptions) : SwapOptions :=
  {| SendOptions := SendOptions options;
     ConfirmationRetries := ConfirmationRetries options;
     ConfirmationRetryTimeout := ConfirmationRetryTimeout options;
     LastValidBlockHeightBuffer := LastValidBlockHeightBuffer options;
     Commitment := Commitment options;
     ResendInterval := ResendInterval options;
     ConfirmationCheckInterval := ConfirmationCheckInterval options;
     SkipConfirmationCheck := true |}.

(** Answers of a status query. *)
Definition statusAt (level : ConfirmationStatusType)
    : RpcError + GetSignatureStatusesResult :=
  inr {| Value := [Some {| Slot := 1; Confirmations := None;
                           Err := None; ConfirmationStatus := level |}] |}.

Definition failedAt (e : TxError) (level : ConfirmationStatusType)
    : RpcError + GetSignatureStatusesResult :=
  inr {| Value := [Some {| Slot := 1; Confirmations := None;
                           Err := Some e; ConfirmationStatus := level |}] |}.

Definition unknown : RpcError + GetSignatureStatusesResult :=
  inr {| Value := [None] |}.

(** A node that accepts the transaction under [sig] and answers the
    status queries from a script, then with [unknown]. *)
Definition scripted (sig : Signature)
    (answers : list (RpcError + GetSignatureStatusesResult)) : Node :=
  {| onSend := fun _ _ => inr sig;
     onStatus := fun j => nth j answers unknown |}.

(** A node that gives every status query the same answer. *)
Definition steady (sig : Signature)
    (answer : RpcError + GetSignatureStatusesResult) : Node :=
  {| onSend := fun _ _ => inr sig;
     onStatus := fun _ => answer |}.

(** A node that rejects the submission. *)
Definition rejecting (err : RpcError) : Node :=
  {| onSend := fun _ _ => inl err;
     onStatus := fun _ => statusAt ConfirmationStatusFinalized |}.

(** ** The loop body as a function of the answer *)

(** What one pass of the loop body decides from the answer to its
    status query (lines 278-292). *)
Definition verdict (sig : Signature)
    (a : RpcError + GetSignatureStatusesResult) : Step :=
  match a with
  | inl err => Exit (Failed (ErrGettingStatus err))
  | inr status =>
      match Value status with
      | [] => Exit Panicked
      | Some st :: _ =>
          match Err st with
          | Some e => Exit (Failed (ErrTransactionFailed e))
          | None =>
              if string_ge (ConfirmationStatus st) ConfirmationStatusFinalized
              then Exit (Returned sig)
              else Next
          end
      | None :: _ => Next
      end
  end.

(** Options that differ from [options] in the poll interval only. *)
Definition withInterval (options : SwapOptions) (d : Duration) : SwapOptions :=
  {| SendOptions := SendOptions options;
     ConfirmationRetries := ConfirmationRetries options;
     ConfirmationRetryTimeout := ConfirmationRetryTimeout options;
     LastValidBlockHeightBuffer := LastValidBlockHeightBuffer options;
     Commitment := Commitment options;
     ResendInterval := ResendInterval options;
     ConfirmationCheckInterval := d;
     SkipConfirmationCheck := SkipConfirmationCheck options |}.

(** A node that answers with a list without entries. *)
Definition noEntries : RpcError + GetSignatureStatusesResult :=
  inr {| Value := [] |}.

(** ** Bytes of a query *)

(** The bytes [Encode] writes: those [shouldEscape] lets through, the
    [%] and [+] of escapes, and the [=] and [&] of the query syntax. *)
Definition isQueryByte (c : ascii) : bool :=
  negb (shouldEscape c) ||
  ((c =? "%") || (c =? "+") || (c =? "=") || (c =? "&"))%char.

Fixpoint allBytes (p : ascii -> bool) (s : string) : bool :=
  match s with
  | EmptyString => true
  | String c s' => p c && allBytes p s'
  end.

(** ** PerformSwap *)

(** [solana.Hash], [solana.PublicKey] and [solana.PrivateKey], opaque
    here. *)
Definition Hash := string.
Definition PublicKey := string.
Definition PrivateKey := string.

(** [rpc.LatestBlockhashResult] and [rpc.GetLatestBlockhashResult]: the
    client returns a pointer to the result, whose [Value] (here
    [LatestValue], the name [Value] being taken) is a pointer too. *)
Record LatestBlockhashResult := {
  Blockhash : Hash;
  LastValidBlockHeight : N
}.

Record GetLatestBlockhashResult := {
  LatestValue : option LatestBlockhashResult
}.

(** The calls [PerformSwap] makes to the node: the blockhash request,
    then those of [sendAndConfirmTransaction]. *)
Inductive SwapCall :=
| CallBlockhash (commitment : CommitmentType)
| CallNode (c : Call).

(** The errors [PerformSwap] builds, by their message. *)
Inductive PerformError :=
| ErrDecodingTransaction (cause : string)       (* error decoding transaction: %w *)
| ErrDeserializingTransaction (cause : string)  (* error deserializing transaction: %w *)
| ErrGettingBlockhash (cause : RpcError)        (* error getting recent blockhash: %w *)
| ErrSigningTransaction (cause : string)        (* error signing transaction: %w *)
| ErrSendingAndConfirming (e : SwapError).      (* error sending and confirming transaction: %w *)

(** [return txid, nil], [return "", err], or a run-time panic: the nil
    dereference of line 224, or the panic of the loop. *)
Inductive SwapOutcome :=
| Swapped (txid : string)
| SwapFailed (e : PerformError)
| SwapPanicked.

Section PerformSwap.

(** [base64.StdEncoding.DecodeString] *)
Variable DecodeString : string -> string + string.

(** [solana.TransactionFromDecoder(bin.NewBinDecoder(bytes))] *)
Variable TransactionFromDecoder : string -> string + Transaction.

(** The transaction after [tx.Message.RecentBlockhash = hash]. *)
Variable setRecentBlockhash : Transaction -> Hash -> Transaction.

(** [key.PublicKey()] *)
Variable PublicKeyOf : PrivateKey -> PublicKey.

(** [tx.Sign(getter)]: an error, or the transaction with its
    signatures. *)
Variable Sign :
  Transaction -> (PublicKey -> option PrivateKey) -> string + Transaction.

(** [signature.String()] *)
Variable SignatureString : Signature -> string.

(** What [GetLatestBlockhash] returns: an error, or the pointer to the
    result, which may be nil. *)
Variable onBlockhash :
  CommitmentType -> RpcError + option GetLatestBlockhashResult.

Variable node : Node.

(** The key getter handed to [tx.Sign] (lines 227-232). *)
Definition keyGetter (st : SolanaTracker) (key : PublicKey) : option PrivateKey :=
  if (PublicKeyOf (Keypair st) =? key)%string then Some (Keypair st) else None.

Definition PerformSwap (st : SolanaTracker) (swapResponse : SwapResponse)
    (options : SwapOptions) : SwapOutcome * list SwapCall :=
  match DecodeString (Txn swapResponse) with
  | inl err => (SwapFailed (ErrDecodingTransaction err), [])
  | inr serializedTx =>
      match TransactionFromDecoder serializedTx with
      | inl err => (SwapFailed (ErrDeserializingTransaction err), [])
      | inr tx =>
          match onBlockhash CommitmentFinalized with
          | inl err =>
              (SwapFailed (ErrGettingBlockhash err),
               [CallBlockhash CommitmentFinalized])
          | inr recentBlockhash =>
              (* recentBlockhash.Value.Blockhash *)
              match recentBlockhash with
              | None =>
                  (SwapPanicked, [CallBlockhash CommitmentFinalized])
              | Some result =>
                  match LatestValue result with
                  | None =>
                      (SwapPanicked, [CallBlockhash CommitmentFinalized])
                  | Some latest =>
                      let tx := setRecentBlockhash tx (Blockhash latest) in
                      match Sign tx (keyGetter st) with
                      | inl err =>
                          (SwapFailed (ErrSigningTransaction err),
                           [CallBlockhash CommitmentFinalized])
                      | inr tx =>
                          let (signature, s) :=
                            sendAndConfirmTransaction node tx options start in
                          (match signature with
                           | Returned sig => Swapped (SignatureString sig)
                           | Failed err =>
                               SwapFailed (ErrSendingAndConfirming err)
                           | Panicked => SwapPanicked
                           end,
                           CallBlockhash CommitmentFinalized
                           :: map CallNode (calls s))
                      end
                  end
              end
          end
      end
  end.

End PerformSwap.

(** The submissions among the calls of a swap. *)
Definition isSubmission (c : SwapCall) : bool :=
  match c with
  | CallNode (CallSend _ _) => true
  | _ => false
  end.

(** Sample collaborators: a payload that decodes to itself, a blockhash
    that is appended to the transaction, and a signer that signs when
    the getter knows the key [owner]. *)
Definition sameBytes (s : string) : string + string := inr s.

Definition appendHash (tx : Transaction) (h : Hash) : Transaction :=
  (tx ++ "#" ++ h)%string.

Definition signFor (owner : PublicKey) (tx : Transaction)
    (getter : PublicKey -> option PrivateKey) : string + Transaction :=
  match getter owner with
  | Some key => inr (tx ++ "/" ++ key)%string
  | None => inl "signer key not found"
  end.

Definition latest (h : Hash)
    : CommitmentType -> RpcError + option GetLatestBlockhashResult :=
  fun _ =>
    inr (Some {| LatestValue :=
                   Some {| Blockhash := h; LastValidBlockHeight := 0 |} |}).


(** [PerformSwap] with the sample collaborators: the required signer is
    [owner], the node returns the blockhash [hash]. *)
Definition sampleSwap (node : Node) : SolanaTracker -> SwapResponse ->
    SwapOptions -> SwapOutcome * list SwapCall :=
  PerformSwap sameBytes sameBytes appendHash (fun key => key) (signFor "owner")
    (fun sig => sig) (latest "hash") node.
(** ** The loop, unfolded *)

Lemma confirmLoop_step node options sig i s :
  confirmLoop node options sig i s =
  if i <? ConfirmationRetries options then
    match iteration node options sig s with
    | (Exit r, s') => (r, s')
    | (Next, s') => confirmLoop node options sig (i + 1) s'
    end
  else (Failed ErrTimedOut, s).
Proof.
  rewrite confirmLoop_equation_1.
  unfold confirmLoop_unfold_clause_1.
  destruct (Z_lt_dec i (ConfirmationRetries options)) as [Hlt | Hge];
    destruct (Z.ltb_spec i (ConfirmationRetries options)); try lia.
  - destruct (iteration node options sig s) as [[r |] s']; reflexivity.
  - reflexivity.
Qed.

Lemma confirmLoop_exhausted node options sig i s :
  ConfirmationRetries options <= i ->
  confirmLoop node options sig i s = (Failed ErrTimedOut, s).
Proof.
  intros H. rewrite confirmLoop_step.
  destruct (Z.ltb_spec i (ConfirmationRetries options)); [lia | reflexivity].
Qed.

Lemma iteration_keepsPolling node options sig s :
  keepsPolling (onStatus node (queries s)) = true ->
  iteration node options sig s =
  (Next, {| queries := S (queries s);
            calls := calls s ++ round sig (ConfirmationCheckInterval options) |}).
Proof.
  unfold iteration, keepsPolling, bind, GetSignatureStatuses, Sleep, record, ret, round.
  destruct (onStatus node (queries s)) as [e | res]; [discriminate |].
  destruct (Value res) as [| [st |] rest]; [discriminate | |].
  - destruct (Err st); [discriminate |].
    destruct (string_ge _ _); [discriminate |].
    intros _. cbn. rewrite <- app_assoc. reflexivity.
  - intros _. cbn. rewrite <- app_assoc. reflexivity.
Qed.

Lemma iteration_exits node options sig s :
  keepsPolling (onStatus node (queries s)) = false ->
  exists r, iteration node options sig s =
  (Exit r, {| queries := S (queries s); calls := calls s ++ [CallStatus sig] |}).
Proof.
  unfold iteration, keepsPolling, bind, GetSignatureStatuses, Sleep, record, ret.
  destruct (onStatus node (queries s)) as [e | res]; [eauto |].
  destruct (Value res) as [| [st |] rest]; [eauto | | discriminate].
  destruct (Err st); [eauto |].
  destruct (string_ge _ _); [eauto | discriminate].
Qed.

Lemma iteration_failed node options sig s res st rest e :
  onStatus node (queries s) = inr res ->
  Value res = Some st :: rest ->
  Err st = Some e ->
  iteration node options sig s =
  (Exit (Failed (ErrTransactionFailed e)),
   {| queries := S (queries s); calls := calls s ++ [CallStatus sig] |}).
Proof.
  intros Ha Hv He.
  unfold iteration, bind, GetSignatureStatuses, ret.
  rewrite Ha, Hv, He. reflexivity.
Qed.


Lemma iteration_rpc_error node options sig s err :
  onStatus node (queries s) = inl err ->
  iteration node options sig s =
  (Exit (Failed (ErrGettingStatus err)),
   {| queries := S (queries s); calls := calls s ++ [CallStatus sig] |}).
Proof.
  intros Ha. unfold iteration, bind, GetSignatureStatuses, ret.
  rewrite Ha. reflexivity.
Qed.

(** ** Counting the calls of a run *)

Lemma polls_app cs cs' : polls (cs ++ cs') = (polls cs + polls cs')%nat.
Proof. unfold polls. rewrite filter_app, length_app. reflexivity. Qed.

Lemma sends_app cs cs' : sends (cs ++ cs') = (sends cs + sends cs')%nat.
Proof. unfold sends. rewrite filter_app, length_app. reflexivity. Qed.

Lemma rounds_succ sig d m :
  rounds sig d (S m) = round sig d ++ rounds sig d m.
Proof. reflexivity. Qed.

Lemma polls_rounds sig d m : polls (rounds sig d m) = m.
Proof.
  induction m as [| m IH]; [reflexivity |].
  rewrite rounds_succ, polls_app, IH. reflexivity.
Qed.

Lemma slept_app cs cs' : slept (cs ++ cs') = slept cs + slept cs'.
Proof.
  induction cs as [| c cs IH]; [reflexivity |].
  destruct c; cbn [slept app]; rewrite IH; lia.
Qed.

Lemma slept_rounds sig d m : slept (rounds sig d m) = Z.of_nat m * d.
Proof.
  induction m as [| m IH]; [reflexivity |].
  rewrite rounds_succ, slept_app, IH. cbn [round slept]. lia.
Qed.

(** ** The loop over a stretch of undecided polls *)

(** While the node keeps answering undecided statuses and the budget
    lasts, [m] iterations make [m] polls, each followed by its sleep. *)
Lemma confirmLoop_rounds node options sig m : forall i s,
  (forall j, (j < m)%nat ->
     keepsPolling (onStatus node (queries s + j)) = true) ->
  ((0 < m)%nat -> i + Z.of_nat m <= ConfirmationRetries options) ->
  confirmLoop node options sig i s =
  confirmLoop node options sig (i + Z.of_nat m)
    {| queries := queries s + m;
       calls := calls s ++ rounds sig (ConfirmationCheckInterval options) m |}.
Proof.
  induction m as [| m IH]; intros i s Hkeep Hle.
  - destruct s as [q cs]. cbn [queries calls rounds repeat concat].
    rewrite Z.add_0_r, Nat.add_0_r, app_nil_r. reflexivity.
  - rewrite confirmLoop_step.
    destruct (Z.ltb_spec i (ConfirmationRetries options)); [| lia].
    rewrite iteration_keepsPolling
      by (specialize (Hkeep 0%nat); rewrite Nat.add_0_r in Hkeep; apply Hkeep; lia).
    rewrite IH.
    + cbn [queries calls]. rewrite rounds_succ, <- app_assoc.
      f_equal; [lia |]. f_equal. lia.
    + intros j Hj. cbn [queries].
      replace (S (queries s) + j)%nat with (queries s + S j)%nat by lia.
      apply Hkeep. lia.
    + lia.
Qed.

(** The loop only ever adds calls, and a status query that takes place
    was preceded by undecided answers within the budget. *)
Lemma confirmLoop_reach node options sig k : forall i s,
  (polls (calls s) + k <=
   polls (calls (snd (confirmLoop node options sig i s))))%nat ->
  (forall j, (S j < k)%nat ->
     keepsPolling (onStatus node (queries s + j)) = true) /\
  (k = 0%nat \/ i + Z.of_nat k <= ConfirmationRetries options).
Proof.
  induction k as [| k IH]; intros i s Hk.
  - split; [intros j Hj; lia | left; reflexivity].
  - rewrite confirmLoop_step in Hk.
    destruct (Z.ltb_spec i (ConfirmationRetries options)) as [Hlt | Hge].
    2:{ cbn [snd] in Hk. lia. }
    destruct (keepsPolling (onStatus node (queries s))) eqn:Hkeep.
    + rewrite iteration_keepsPolling in Hk by assumption.
      destruct (IH (i + 1)
        {| queries := S (queries s);
           calls := calls s ++ round sig (ConfirmationCheckInterval options) |})
        as [Hpre Hbud].
      { cbn [calls]. rewrite polls_app. cbn [round polls filter isStatus length] in *.
        lia. }
      split.
      * intros [| j] Hj.
        -- rewrite Nat.add_0_r. exact Hkeep.
        -- replace (queries s + S j)%nat with (S (queries s) + j)%nat by lia.
           apply Hpre. lia.
      * right. destruct Hbud as [-> | Hbud]; lia.
    + destruct (iteration_exits node options sig s Hkeep) as [r Hr].
      rewrite Hr in Hk. cbn [snd calls] in Hk. rewrite polls_app in Hk.
      cbn [polls filter isStatus length] in Hk.
      assert (k = 0%nat) as -> by lia.
      split; [intros j Hj; lia | right; lia].
Qed.

(** ** A whole invocation *)

Lemma run_send_failed node tx options err :
  onSend node tx (SendOptions options) = inl err ->
  run node tx options = (Failed (ErrSending err), sent tx options).
Proof.
  intros H. unfold run, sendAndConfirmTransaction, bind, SendTransactionWithOpts.
  rewrite H. reflexivity.
Qed.

Lemma run_skip node tx options sig :
  onSend node tx (SendOptions options) = inr sig ->
  SkipConfirmationCheck options = true ->
  run node tx options = (Returned sig, sent tx options).
Proof.
  intros H Hs. unfold run, sendAndConfirmTransaction, bind, SendTransactionWithOpts.
  rewrite H, Hs. reflexivity.
Qed.

Lemma run_loop node tx options sig :
  onSend node tx (SendOptions options) = inr sig ->
  SkipConfirmationCheck options = false ->
  run node tx options = confirmLoop node options sig 0 (sent tx options).
Proof.
  intros H Hs. unfold run, sendAndConfirmTransaction, bind, SendTransactionWithOpts.
  rewrite H, Hs. reflexivity.
Qed.

(** Entering attempt [m + 1]: the send went through, confirmation is
    not skipped, and the first [m] answers left the status undecided. *)
Lemma run_attempt node tx options sig m :
  onSend node tx (SendOptions options) = inr sig ->
  SkipConfirmationCheck options = false ->
  ((0 < m)%nat -> Z.of_nat m <= ConfirmationRetries options) ->
  (forall j, (j < m)%nat -> keepsPolling (onStatus node j) = true) ->
  run node tx options =
  confirmLoop node options sig (Z.of_nat m)
    {| queries := m;
       calls := CallSend tx (SendOptions options)
                :: rounds sig (ConfirmationCheckInterval options) m |}.
Proof.
  intros Hsend Hskip Hle Hkeep.
  rewrite (run_loop _ _ _ _ Hsend Hskip).
  rewrite (confirmLoop_rounds node options sig m) by (cbn; auto).
  reflexivity.
Qed.

(** If the [k]-th status query takes place, the run entered attempt [k]. *)
Lemma run_reach node tx options k :
  (1 <= k <= pollCount node tx options)%nat ->
  exists sig,
    onSend node tx (SendOptions options) = inr sig /\
    SkipConfirmationCheck options = false /\
    Z.of_nat k <= ConfirmationRetries options /\
    (forall j, (S j < k)%nat -> keepsPolling (onStatus node j) = true).
Proof.
  unfold pollCount, trace. intros [Hk1 Hk].
  destruct (onSend node tx (SendOptions options)) as [err | sig] eqn:Hsend.
  { rewrite (run_send_failed _ _ _ _ Hsend) in Hk. cbn in Hk. lia. }
  destruct (SkipConfirmationCheck options) eqn:Hskip.
  { rewrite (run_skip _ _ _ _ Hsend Hskip) in Hk. cbn in Hk. lia. }
  rewrite (run_loop _ _ _ _ Hsend Hskip) in Hk.
  destruct (confirmLoop_reach node options sig k 0 (sent tx options)) as [Hpre Hbud].
  { cbn [sent calls polls filter isStatus length]. lia. }
  exists sig. repeat split; auto.
  destruct Hbud; lia.
Qed.

(** The run, unfolded up to the status query of attempt [k]. *)
Lemma run_at_attempt node tx options k :
  (1 <= k <= pollCount node tx options)%nat ->
  exists sig,
    onSend node tx (SendOptions options) = inr sig /\
    run node tx options =
    match iteration node options sig
            {| queries := k - 1;
               calls := CallSend tx (SendOptions options)
                        :: rounds sig (ConfirmationCheckInterval options) (k - 1) |}
    with
    | (Exit r, s') => (r, s')
    | (Next, s') => confirmLoop node options sig (Z.of_nat k) s'
    end.
Proof.
  intros Hk. destruct (run_reach _ _ _ _ Hk) as (sig & Hsend & Hskip & Hle & Hpre).
  exists sig. split; [exact Hsend |].
  rewrite (run_attempt node tx options sig (k - 1) Hsend Hskip)
    by (try lia; intros j Hj; apply Hpre; lia).
  rewrite confirmLoop_step.
  destruct (Z.ltb_spec (Z.of_nat (k - 1)) (ConfirmationRetries options)); [| lia].
  replace (Z.of_nat (k - 1) + 1) with (Z.of_nat k) by lia.
  reflexivity.
Qed.

(** The loop only adds calls to those already made, and none of them
    is a submission. *)
Lemma confirmLoop_extends node options sig m : forall i s,
  (Z.to_nat (ConfirmationRetries options - i) <= m)%nat ->
  exists extra,
    calls (snd (confirmLoop node options sig i s)) = calls s ++ extra /\
    sends extra = 0%nat.
Proof.
  induction m as [| m IH]; intros i s Hm.
  - rewrite confirmLoop_exhausted by lia.
    exists []. cbn [snd]. rewrite app_nil_r. split; reflexivity.
  - rewrite confirmLoop_step.
    destruct (Z.ltb_spec i (ConfirmationRetries options)).
    2:{ exists []. cbn [snd]. rewrite app_nil_r. split; reflexivity. }
    destruct (keepsPolling (onStatus node (queries s))) eqn:Hkeep.
    + rewrite iteration_keepsPolling by assumption.
      destruct (IH (i + 1)
        {| queries := S (queries s);
           calls := calls s ++ round sig (ConfirmationCheckInterval options) |})
        as (extra & Hcalls & Hsends); [lia |].
      exists (round sig (ConfirmationCheckInterval options) ++ extra).
      rewrite Hcalls. cbn [calls]. rewrite <- app_assoc.
      split; [reflexivity |]. rewrite sends_app, Hsends. reflexivity.
    + destruct (iteration_exits node options sig s Hkeep) as [r ->].
      exists [CallStatus sig]. split; reflexivity.
Qed.

(** The loop reads two fields of the options: its budget and its
    interval. *)
Lemma confirmLoop_ext node options options' sig m : forall i s,
  ConfirmationRetries options = ConfirmationRetries options' ->
  ConfirmationCheckInterval options = ConfirmationCheckInterval options' ->
  (Z.to_nat (ConfirmationRetries options - i) <= m)%nat ->
  confirmLoop node options sig i s = confirmLoop node options' sig i s.
Proof.
  induction m as [| m IH]; intros i s Hn Hd Hm.
  - rewrite !confirmLoop_exhausted by lia. reflexivity.
  - rewrite !confirmLoop_step. rewrite <- Hn.
    destruct (Z.ltb_spec i (ConfirmationRetries options)); [| reflexivity].
    assert (iteration node options sig s = iteration node options' sig s) as <-.
    { unfold iteration. rewrite Hd. reflexivity. }
    destruct (iteration node options sig s) as [[r |] s']; [reflexivity |].
    apply IH; auto. lia.
Qed.

Lemma run_ext node tx options options' :
  SendOptions options = SendOptions options' ->
  ConfirmationRetries options = ConfirmationRetries options' ->
  ConfirmationCheckInterval options = ConfirmationCheckInterval options' ->
  SkipConfirmationCheck options = SkipConfirmationCheck options' ->
  run node tx options = run node tx options'.
Proof.
  intros Hs Hn Hd Hk.
  unfold run, sendAndConfirmTransaction, bind, SendTransactionWithOpts.
  rewrite <- Hs, <- Hk.
  destruct (onSend node tx (SendOptions options)); [reflexivity |].
  destruct (SkipConfirmationCheck options); [reflexivity |].
  apply (confirmLoop_ext node options options' s
           (Z.to_nat (ConfirmationRetries options - 0))); auto.
Qed.

(** ** The submit-and-confirm loop: properties *)

(** C1.  The claim: the signature is returned exactly when a queried
    status is at or above the commitment configured in the options, so
    that three polls answering "processed" under required commitment
    "finalized" end in the time-out after three polls.  The code on
    that input: "processed" is below "finalized" in the order of the
    levels, yet the first poll already returns the signature, because
    line 288 compares the level names as strings; and the configured
    commitment is not read, so that three polls answering "confirmed"
    under required commitment "confirmed" end in the time-out. *)
Theorem processed_passes_the_finalized_comparison :
  let node := steady "sig" (statusAt ConfirmationStatusProcessed) in
  let options := threeRetries CommitmentFinalized in
  atOrAbove ConfirmationStatusProcessed (Commitment options) = false /\
  outcome node "tx" options = Returned "sig" /\
  pollCount node "tx" options = 1%nat /\
  (let node' := steady "sig" (statusAt ConfirmationStatusConfirmed) in
   let options' := threeRetries CommitmentConfirmed in
   atOrAbove ConfirmationStatusConfirmed (Commitment options') = true /\
   outcome node' "tx" options' = Failed ErrTimedOut /\
   pollCount node' "tx" options' = 3%nat) /\
  (forall node tx options c,
     run node tx (withCommitment options c) = run node tx options).
Proof.
  cbv zeta. repeat split; try (vm_compute; reflexivity).
  intros node tx options c. apply run_ext; reflexivity.
Qed.

(** C2.  The claim: some pair of runs that differ only in
    ConfirmationRetryTimeout, LastValidBlockHeightBuffer and
    ResendInterval behaves differently.  The code: a run is the same
    whatever these three fields hold; with the options of example.go
    and a node that never knows the signature it polls 50 times and
    sleeps 5000ms in all, under a ConfirmationRetryTimeout of 1000ms. *)
Theorem bounds_are_not_consulted :
  (forall node tx options timeout buffer resend,
     run node tx (withBounds options timeout buffer resend) =
     run node tx options) /\
  (let node := steady "sig" unknown in
   ConfirmationRetryTimeout exampleOptions = 1000 * Millisecond /\
   outcome node "tx" exampleOptions = Failed ErrTimedOut /\
   pollCount node "tx" exampleOptions = 50%nat /\
   slept (trace node "tx" exampleOptions) = 5000 * Millisecond).
Proof.
  split.
  - intros. apply run_ext; reflexivity.
  - cbv zeta. repeat split; vm_compute; reflexivity.
Qed.

(** C3.  With SkipConfirmationCheck set and a send that succeeds, the
    call returns the signature of the send right after it: the send is
    the only call made, and no status is polled. *)
Theorem skip_confirmation_returns_after_send node tx options sig :
  SkipConfirmationCheck options = true ->
  onSend node tx (SendOptions options) = inr sig ->
  outcome node tx options = Returned sig /\
  trace node tx options = [CallSend tx (SendOptions options)] /\
  pollCount node tx options = 0%nat.
Proof.
  intros Hskip Hsend. unfold pollCount, trace, outcome.
  rewrite (run_skip _ _ _ _ Hsend Hskip). repeat split.
Qed.

Lemma skip_confirmation_returns_after_send_witness :
  let node := steady "sig" unknown in
  let options := withSkip exampleOptions in
  outcome node "tx" options = Returned "sig" /\
  trace node "tx" options = [CallSend "tx" (SendOptions options)] /\
  pollCount node "tx" options = 0%nat.
Proof.
  cbv zeta.
  apply (skip_confirmation_returns_after_send
           (steady "sig" unknown) "tx" (withSkip exampleOptions) "sig");
    reflexivity.
Defined.

(** C4, as stated, fails on three inputs.  A status query that itself
    fails reports neither sufficient commitment nor a transaction
    error, and ends the call at once with the error of the query, not
    the time-out; with a negative ConfirmationRetries no poll is made,
    which is not "exactly ConfirmationRetries polls"; and a send that
    is rejected ends the call before any poll. *)
Lemma timeout_claim_counterexample :
  (let node := scripted "sig" [inl "connection reset"] in
   let options := threeRetries CommitmentFinalized in
   SkipConfirmationCheck options = false /\
   ConfirmationRetries options = 3 /\
   (forall j, decisive (onStatus node j) = false) /\
   outcome node "tx" options = Failed (ErrGettingStatus "connection reset") /\
   pollCount node "tx" options = 1%nat) /\
  (let node := steady "sig" unknown in
   let options := withRetries exampleOptions (-1) in
   SkipConfirmationCheck options = false /\
   (forall j, decisive (onStatus node j) = false) /\
   Z.of_nat (pollCount node "tx" options) <> ConfirmationRetries options) /\
  (let node := {| onSend := fun _ _ => inl "rejected";
                  onStatus := fun _ => unknown |} in
   let options := threeRetries CommitmentFinalized in
   SkipConfirmationCheck options = false /\
   (forall j, decisive (onStatus node j) = false) /\
   outcome node "tx" options = Failed (ErrSending "rejected") /\
   pollCount node "tx" options = 0%nat).
Proof.
  cbv zeta. repeat split; try (vm_compute; reflexivity).
  - intros [| [| j]]; reflexivity.
  - vm_compute. discriminate.
Qed.

(** C4, amended.  With SkipConfirmationCheck false and a send that
    succeeds, if every status query within the budget is answered, and
    answered with an unknown signature or with a status that carries no
    error and whose level is below the configured commitment (in the
    order processed < confirmed < finalized) and fails the comparison
    of the loop, the call ends in the time-out after
    max(0, ConfirmationRetries) polls, each followed by a sleep of
    ConfirmationCheckInterval. *)
Theorem timeout_after_the_budget node tx options sig :
  SkipConfirmationCheck options = false ->
  onSend node tx (SendOptions options) = inr sig ->
  (forall j, Z.of_nat j < ConfirmationRetries options ->
     keepsPolling (onStatus node j) = true) ->
  (forall j res st rest, Z.of_nat j < ConfirmationRetries options ->
     onStatus node j = inr res ->
     Value res = Some st :: rest ->
     atOrAbove (ConfirmationStatus st) (Commitment options) = false) ->
  outcome node tx options = Failed ErrTimedOut /\
  trace node tx options =
    CallSend tx (SendOptions options)
    :: rounds sig (ConfirmationCheckInterval options)
         (Z.to_nat (ConfirmationRetries options)) /\
  Z.of_nat (pollCount node tx options) = Z.max 0 (ConfirmationRetries options) /\
  slept (trace node tx options) =
    Z.max 0 (ConfirmationRetries options) * ConfirmationCheckInterval options.
Proof.
  intros Hskip Hsend Hkeep _. unfold pollCount, trace, outcome.
  rewrite (run_attempt node tx options sig
             (Z.to_nat (ConfirmationRetries options)) Hsend Hskip)
    by (try lia; intros j Hj; apply Hkeep; lia).
  rewrite confirmLoop_exhausted by lia.
  cbn [fst snd calls]. repeat split.
  - change (CallSend tx (SendOptions options) :: ?l)
      with ([CallSend tx (SendOptions options)] ++ l).
    rewrite polls_app, polls_rounds. cbn. lia.
  - cbn [slept]. rewrite slept_rounds. f_equal. lia.
Qed.

Lemma timeout_after_the_budget_witness :
  let node := steady "sig" (statusAt ConfirmationStatusConfirmed) in
  let options := threeRetries CommitmentFinalized in
  outcome node "tx" options = Failed ErrTimedOut /\
  trace node "tx" options =
    CallSend "tx" (SendOptions options)
    :: rounds "sig" (ConfirmationCheckInterval options)
         (Z.to_nat (ConfirmationRetries options)) /\
  Z.of_nat (pollCount node "tx" options) = Z.max 0 (ConfirmationRetries options) /\
  slept (trace node "tx" options) =
    Z.max 0 (ConfirmationRetries options) * ConfirmationCheckInterval options.
Proof.
  cbv zeta.
  apply (timeout_after_the_budget
           (steady "sig" (statusAt ConfirmationStatusConfirmed)) "tx"
           (threeRetries CommitmentFinalized) "sig").
  - reflexivity.
  - reflexivity.
  - intros j _. reflexivity.
  - intros j res st rest _ Hanswer Hvalue.
    injection Hanswer as <-. injection Hvalue as <- _. reflexivity.
Defined.

(** C5.  If the status query of attempt [k] takes place and its answer
    carries a transaction-level error, the call ends with the
    confirmation error built from that error, and attempt [k] was the
    last poll.  (An attempt that takes place is within the budget:
    [k <= ConfirmationRetries].) *)
Theorem transaction_error_ends_the_polling node tx options k res st rest e :
  (1 <= k <= pollCount node tx options)%nat ->
  onStatus node (k - 1) = inr res ->
  Value res = Some st :: rest ->
  Err st = Some e ->
  outcome node tx options = Failed (ErrTransactionFailed e) /\
  pollCount node tx options = k /\
  Z.of_nat k <= ConfirmationRetries options.
Proof.
  intros Hk Ha Hv He.
  destruct (run_reach _ _ _ _ Hk) as (sig0 & _ & _ & Hle & _).
  destruct (run_at_attempt _ _ _ _ Hk) as (sig & Hsend & Hrun).
  rewrite (iteration_failed node options sig _ res st rest e) in Hrun
    by assumption.
  unfold pollCount, trace, outcome. rewrite Hrun. cbn [fst snd calls].
  repeat split; [| exact Hle].
  change (CallSend tx (SendOptions options) :: ?l)
    with ([CallSend tx (SendOptions options)] ++ l).
  rewrite !polls_app, polls_rounds. cbn. lia.
Qed.

Lemma transaction_error_ends_the_polling_witness :
  let node :=
    scripted "sig" [unknown; failedAt "InstructionError" "processed";
                    statusAt "finalized"] in
  let options := threeRetries CommitmentFinalized in
  outcome node "tx" options = Failed (ErrTransactionFailed "InstructionError") /\
  pollCount node "tx" options = 2%nat /\
  Z.of_nat 2 <= ConfirmationRetries options.
Proof.
  cbv zeta.
  eapply (transaction_error_ends_the_polling
            (scripted "sig" [unknown; failedAt "InstructionError" "processed";
                             statusAt "finalized"])
            "tx" (threeRetries CommitmentFinalized) 2).
  - vm_compute. lia.
  - reflexivity.
  - reflexivity.
  - reflexivity.
Defined.




(** C7.  Every invocation submits the transaction exactly once, as its
    first call and with the send options of the bundle; when the node
    rejects the submission the call ends there with the send error, and
    no status is polled. *)
Theorem transaction_is_submitted_once node tx options :
  sends (trace node tx options) = 1%nat /\
  (exists later,
     trace node tx options = CallSend tx (SendOptions options) :: later /\
     sends later = 0%nat) /\
  (forall err,
     onSend node tx (SendOptions options) = inl err ->
     outcome node tx options = Failed (ErrSending err) /\
     trace node tx options = [CallSend tx (SendOptions options)] /\
     pollCount node tx options = 0%nat).
Proof.
  assert (exists later,
     trace node tx options = CallSend tx (SendOptions options) :: later /\
     sends later = 0%nat) as Hshape.
  { unfold trace.
    destruct (onSend node tx (SendOptions options)) as [err | sig] eqn:Hsend.
    { rewrite (run_send_failed _ _ _ _ Hsend). exists []. split; reflexivity. }
    destruct (SkipConfirmationCheck options) eqn:Hskip.
    { rewrite (run_skip _ _ _ _ Hsend Hskip). exists []. split; reflexivity. }
    rewrite (run_loop _ _ _ _ Hsend Hskip).
    destruct (confirmLoop_extends node options sig
                (Z.to_nat (ConfirmationRetries options - 0)) 0 (sent tx options))
      as (extra & Hcalls & Hsends); [lia |].
    exists extra. rewrite Hcalls. split; [reflexivity | exact Hsends]. }
  split; [| split; [exact Hshape |]].
  - destruct Hshape as (later & -> & Hlater).
    change (CallSend tx (SendOptions options) :: later)
      with ([CallSend tx (SendOptions options)] ++ later).
    rewrite sends_app, Hlater. reflexivity.
  - intros err Hsend. unfold pollCount, trace, outcome.
    rewrite (run_send_failed _ _ _ _ Hsend). repeat split.
Qed.

Lemma transaction_is_submitted_once_witness :
  let node := rejecting "blockhash not found" in
  sends (trace node "tx" exampleOptions) = 1%nat /\
  outcome node "tx" exampleOptions = Failed (ErrSending "blockhash not found") /\
  trace node "tx" exampleOptions = [CallSend "tx" (SendOptions exampleOptions)] /\
  pollCount node "tx" exampleOptions = 0%nat.
Proof.
  cbv zeta.
  destruct (transaction_is_submitted_once
              (rejecting "blockhash not found") "tx" exampleOptions)
    as (Hone & _ & Hrejected).
  split; [exact Hone | apply Hrejected; reflexivity].
Defined.

(** C10.  With SkipConfirmationCheck false, ConfirmationRetries at most
    0 and a send that succeeds, the call ends in the time-out without
    a single status query, whatever the node would have answered. *)
Theorem no_retries_times_out_unpolled node tx options sig :
  SkipConfirmationCheck options = false ->
  ConfirmationRetries options <= 0 ->
  onSend node tx (SendOptions options) = inr sig ->
  outcome node tx options = Failed ErrTimedOut /\
  trace node tx options = [CallSend tx (SendOptions options)] /\
  pollCount node tx options = 0%nat.
Proof.
  intros Hskip Hn Hsend. unfold pollCount, trace, outcome.
  rewrite (run_loop _ _ _ _ Hsend Hskip).
  rewrite confirmLoop_exhausted by lia. repeat split.
Qed.

Lemma no_retries_times_out_unpolled_witness :
  let node := steady "sig" (statusAt ConfirmationStatusFinalized) in
  let options := withRetries exampleOptions 0 in
  outcome node "tx" options = Failed ErrTimedOut /\
  trace node "tx" options = [CallSend "tx" (SendOptions options)] /\
  pollCount node "tx" options = 0%nat.
Proof.
  cbv zeta.
  apply (no_retries_times_out_unpolled
           (steady "sig" (statusAt ConfirmationStatusFinalized)) "tx"
           (withRetries exampleOptions 0) "sig").
  - reflexivity.
  - vm_compute. discriminate.
  - reflexivity.
Defined.

(** ** Strings *)

Lemma append_assoc (a b c : string) :
  ((a ++ b) ++ c)%string = (a ++ (b ++ c))%string.
Proof. induction a as [| x a IH]; cbn; [| rewrite IH]; reflexivity. Qed.

Lemma containsByte_append sep a b :
  containsByte sep (a ++ b)%string = containsByte sep a || containsByte sep b.
Proof.
  induction a as [| x a IH]; cbn; [reflexivity |].
  rewrite IH, orb_assoc. reflexivity.
Qed.

(** ** Escaping and its inverse *)

(** No escaped byte holds a separator of the query syntax. *)
Lemma escapeByte_plain c sep :
  isSeparator sep -> containsByte sep (escapeByte c) = false.
Proof.
  intros [-> | [-> | ->]];
    destruct c as [[] [] [] [] [] [] [] []]; reflexivity.
Qed.

Lemma QueryEscape_plain s sep :
  isSeparator sep -> containsByte sep (QueryEscape s) = false.
Proof.
  intros Hsep. induction s as [| c s IH]; [reflexivity |].
  cbn [QueryEscape]. rewrite containsByte_append, IH, escapeByte_plain by assumption.
  reflexivity.
Qed.

Lemma QueryUnescape_escapeByte c rest :
  QueryUnescape (escapeByte c ++ rest)%string =
  option_map (String c) (QueryUnescape rest).
Proof.
  destruct c as [[] [] [] [] [] [] [] []]; reflexivity.
Qed.

(** Unescaping gives back the escaped text. *)
Lemma QueryUnescape_QueryEscape s : QueryUnescape (QueryEscape s) = Some s.
Proof.
  induction s as [| c s IH]; [reflexivity |].
  cbn [QueryEscape]. rewrite QueryUnescape_escapeByte, IH. reflexivity.
Qed.

(** ** Cutting a query into its pairs *)

Lemma segments_whole a :
  containsByte "&" a = false -> segments a = [a].
Proof.
  induction a as [| c a IH]; [reflexivity |].
  cbn [containsByte segments]. intros H. apply orb_false_elim in H as [Hc Ha].
  rewrite Hc, (IH Ha). reflexivity.
Qed.

Lemma segments_append a b :
  containsByte "&" a = false ->
  segments (a ++ String "&" b)%string = a :: segments b.
Proof.
  induction a as [| c a IH]; [reflexivity |].
  cbn [containsByte]. intros H. apply orb_false_elim in H as [Hc Ha].
  cbn [append segments]. rewrite Hc, (IH Ha). reflexivity.
Qed.

Lemma Cut_append sep k v :
  containsByte sep k = false ->
  Cut sep (k ++ String sep v)%string = (k, v, true).
Proof.
  induction k as [| c k IH].
  - intros _. cbn. rewrite Ascii.eqb_refl. reflexivity.
  - cbn [containsByte]. intros H. apply orb_false_elim in H as [Hc Hk].
    cbn [append Cut]. rewrite Hc, (IH Hk). reflexivity.
Qed.

Lemma encodePair_plain kv sep :
  sep = "&"%char \/ sep = ";"%char ->
  containsByte sep (encodePair kv) = false.
Proof.
  intros Hsep. unfold encodePair.
  rewrite !containsByte_append, !QueryEscape_plain
    by (unfold isSeparator; tauto).
  destruct Hsep as [-> | ->]; reflexivity.
Qed.

Lemma encodePair_length kv : (String.length (encodePair kv) =? 0)%nat = false.
Proof.
  unfold encodePair. destruct (QueryEscape (fst kv)); reflexivity.
Qed.

Lemma parseSegment_encodePair m kv :
  parseSegment (Some m) (encodePair kv) = Some (Add (fst kv) (snd kv) m).
Proof.
  unfold parseSegment.
  rewrite encodePair_plain by tauto. rewrite encodePair_length.
  unfold encodePair. change ("=" ++ ?v)%string with (String "=" v).
  rewrite Cut_append by (apply QueryEscape_plain; unfold isSeparator; tauto).
  rewrite !QueryUnescape_QueryEscape. reflexivity.
Qed.

(** Parsing a query of escaped pairs adds them in their order. *)
Lemma parse_joined fields : forall m,
  fold_left parseSegment (segments (joinAmp (map encodePair fields))) (Some m) =
  Some (fold_left (fun m kv => Add (fst kv) (snd kv) m) fields m).
Proof.
  induction fields as [| kv fields IH]; intros m; [reflexivity |].
  destruct fields as [| kv' fields].
  - cbn [map joinAmp]. rewrite segments_whole by (apply encodePair_plain; tauto).
    cbn [fold_left]. apply parseSegment_encodePair.
  - change (joinAmp (map encodePair (kv :: kv' :: fields)))
      with (encodePair kv ++ String "&" (joinAmp (map encodePair (kv' :: fields))))%string.
    rewrite segments_append by (apply encodePair_plain; tauto).
    cbn [fold_left]. rewrite parseSegment_encodePair. apply IH.
Qed.

Lemma ParseQuery_joined fields :
  ParseQuery (joinAmp (map encodePair fields)) =
  Some (fold_left (fun m kv => Add (fst kv) (snd kv) m) fields []).
Proof. apply parse_joined. Qed.

(** ** The query of a swap request *)

(** [Encode] writes the fields of the request in the order of their
    keys, each once. *)
Lemma swapQuery_joined float64 (Sprintf_f : float64 -> string)
    fromToken toToken fromAmount slippage payer priorityFee forceLegacy :
  swapQuery float64 Sprintf_f fromToken toToken fromAmount slippage payer
    priorityFee forceLegacy =
  joinAmp (map encodePair
    (swapFields float64 Sprintf_f fromToken toToken fromAmount slippage payer
       priorityFee forceLegacy)).
Proof.
  unfold swapQuery, swapParams, swapFields, Encode.
  destruct priorityFee as [fee |]; destruct forceLegacy;
    cbn; repeat (rewrite !append_assoc; cbn); reflexivity.
Qed.

(** ** The quote fetch: properties *)

(** C8.  For every request, the query string is the fields from, to,
    fromAmount, slippage, payer and forceLegacy, and priorityFee when it
    is not nil, written once each as [key=value] in the order of the
    keys and joined by [&]; parsing the query gives back every key with
    exactly one value: the word [true] or [false] for the flag, the
    tokens and the payer unchanged, and for a float the text that
    [fmt.Sprintf("%f", x)] returns. *)
Theorem query_holds_each_field_once float64 (Sprintf_f : float64 -> string)
    fromToken toToken fromAmount slippage payer priorityFee forceLegacy :
  let query :=
    swapQuery float64 Sprintf_f fromToken toToken fromAmount slippage payer
      priorityFee forceLegacy in
  let fields :=
    swapFields float64 Sprintf_f fromToken toToken fromAmount slippage payer
      priorityFee forceLegacy in
  query = joinAmp (map encodePair fields) /\
  ParseQuery query = Some (once fields) /\
  NoDup (map fst fields) /\
  map fst fields =
    ["forceLegacy"; "from"; "fromAmount"; "payer"]
    ++ match priorityFee with Some _ => ["priorityFee"] | None => [] end
    ++ ["slippage"; "to"].
Proof.
  cbv zeta. rewrite swapQuery_joined, ParseQuery_joined.
  split; [reflexivity |].
  split; [| split].
  - destruct priorityFee; reflexivity.
  - destruct priorityFee; cbn;
      repeat (constructor; [cbn; intuition discriminate |]); constructor.
  - destruct priorityFee; reflexivity.
Qed.

(** C9.  Whenever the quote fetch succeeds, the ForceLegacy of the quote
    it returns is the forceLegacy argument of the call; of the decoded
    response only the transaction is kept. *)
Theorem quote_force_legacy_is_the_argument float64 (Sprintf_f : float64 -> string)
    httpGet jsonDecode st fromToken toToken fromAmount slippage payer
    priorityFee forceLegacy quote :
  GetSwapInstructions float64 Sprintf_f httpGet jsonDecode st fromToken toToken
    fromAmount slippage payer priorityFee forceLegacy = inr quote ->
  ForceLegacy quote = forceLegacy /\
  exists body swapResp,
    httpGet (BaseURL st ++ "/swap?" ++
             swapQuery float64 Sprintf_f fromToken toToken fromAmount slippage
               payer priorityFee forceLegacy)%string = inr body /\
    jsonDecode body = inr swapResp /\
    Txn quote = Txn swapResp.
Proof.
  unfold GetSwapInstructions.
  destruct (httpGet _) as [err | body] eqn:Hget; [discriminate |].
  destruct (jsonDecode body) as [err | swapResp] eqn:Hdecode; [discriminate |].
  intros [= <-]. split; [reflexivity |].
  exists body, swapResp. repeat split; assumption.
Qed.

Lemma quote_force_legacy_is_the_argument_witness :
  let quote := {| Txn := "AQID"; ForceLegacy := false |} in
  GetSwapInstructions string (fun x => x)
    (answering "{}") (decodingTo {| Txn := "AQID"; ForceLegacy := true |})
    (NewSolanaTracker "key" "https://solana-rpc.publicnode.com")
    "So11111111111111111111111111111111111111112"
    "4k3Dyjzvzp8eMZWUXbBCjEvwSkkk59S5iCNLY3QrkX6R"
    "0.000100" "30.000000" "payer" (Some "0.000050") false = inr quote /\
  ForceLegacy quote = false.
Proof.
  cbv zeta. split; [reflexivity |].
  apply (quote_force_legacy_is_the_argument string (fun x => x)
           (answering "{}") (decodingTo {| Txn := "AQID"; ForceLegacy := true |})
           (NewSolanaTracker "key" "https://solana-rpc.publicnode.com")
           "So11111111111111111111111111111111111111112"
           "4k3Dyjzvzp8eMZWUXbBCjEvwSkkk59S5iCNLY3QrkX6R"
           "0.000100" "30.000000" "payer" (Some "0.000050") false).
  reflexivity.
Defined.

(** ** More on the submit-and-confirm loop *)

Lemma iteration_verdict node options sig s :
  iteration node options sig s =
  (verdict sig (onStatus node (queries s)),
   {| queries := S (queries s);
      calls := calls s ++
               CallStatus sig ::
               match verdict sig (onStatus node (queries s)) with
               | Next => [CallSleep (ConfirmationCheckInterval options)]
               | Exit _ => []
               end |}).
Proof.
  unfold iteration, verdict, bind, GetSignatureStatuses, Sleep, record, ret.
  destruct (onStatus node (queries s)) as [e | res]; [reflexivity |].
  destruct (Value res) as [| [st |] rest]; [reflexivity | |].
  - destruct (Err st); [reflexivity |].
    destruct (string_ge _ _); [reflexivity |].
    cbn. rewrite <- app_assoc. reflexivity.
  - cbn. rewrite <- app_assoc. reflexivity.
Qed.

Lemma verdict_keepsPolling sig a :
  keepsPolling a = true <-> verdict sig a = Next.
Proof.
  unfold keepsPolling, verdict.
  destruct a as [e | res]; [split; discriminate |].
  destruct (Value res) as [| [st |] rest]; [split; discriminate | | tauto].
  destruct (Err st); [split; discriminate |].
  destruct (string_ge _ _); cbn; split; (reflexivity || discriminate).
Qed.

Lemma verdict_exit sig a :
  keepsPolling a = false -> exists r, verdict sig a = Exit r.
Proof.
  intros H. destruct (verdict sig a) as [r |] eqn:Hv; [eauto |].
  apply verdict_keepsPolling in Hv. congruence.
Qed.

(** Every run of the loop: a stretch of [k] undecided polls, then
    either the budget is used up or the next answer decides. *)
Lemma confirmLoop_cases node options sig m : forall i s,
  (Z.to_nat (ConfirmationRetries options - i) <= m)%nat ->
  exists k,
    (forall j, (j < k)%nat ->
       keepsPolling (onStatus node (queries s + j)) = true) /\
    ((Z.of_nat k = Z.max 0 (ConfirmationRetries options - i) /\
      confirmLoop node options sig i s =
      (Failed ErrTimedOut,
       {| queries := queries s + k;
          calls := calls s ++ rounds sig (ConfirmationCheckInterval options) k |}))
     \/
     (i + Z.of_nat k < ConfirmationRetries options /\
      exists r,
        verdict sig (onStatus node (queries s + k)) = Exit r /\
        confirmLoop node options sig i s =
        (r,
         {| queries := S (queries s + k);
            calls := (calls s ++ rounds sig (ConfirmationCheckInterval options) k)
                     ++ [CallStatus sig] |}))).
Proof.
  assert (Hdone : forall i s, ConfirmationRetries options <= i ->
    exists k,
      (forall j, (j < k)%nat ->
         keepsPolling (onStatus node (queries s + j)) = true) /\
      ((Z.of_nat k = Z.max 0 (ConfirmationRetries options - i) /\
        confirmLoop node options sig i s =
        (Failed ErrTimedOut,
         {| queries := queries s + k;
            calls := calls s ++ rounds sig (ConfirmationCheckInterval options) k |}))
       \/
       (i + Z.of_nat k < ConfirmationRetries options /\
        exists r,
          verdict sig (onStatus node (queries s + k)) = Exit r /\
          confirmLoop node options sig i s =
          (r,
           {| queries := S (queries s + k);
              calls := (calls s ++ rounds sig (ConfirmationCheckInterval options) k)
                       ++ [CallStatus sig] |})))).
  { intros i s Hi. exists 0%nat. split; [intros j Hj; lia |]. left.
    split; [lia |]. rewrite confirmLoop_exhausted by assumption.
    destruct s as [q cs]. cbn [queries calls rounds repeat concat].
    rewrite Nat.add_0_r, app_nil_r. reflexivity. }
  induction m as [| m IH]; intros i s Hm.
  - apply Hdone. lia.
  - destruct (Z_lt_dec i (ConfirmationRetries options)) as [Hlt | Hge];
      [| apply Hdone; lia].
    destruct (keepsPolling (onStatus node (queries s))) eqn:Hkeep.
    + destruct (IH (i + 1)
        {| queries := S (queries s);
           calls := calls s ++ round sig (ConfirmationCheckInterval options) |})
        as (k & Hpre & Hcase); [lia |].
      cbn [queries calls] in Hpre, Hcase.
      exists (S k). split.
      { intros [| j] Hj.
        - rewrite Nat.add_0_r. exact Hkeep.
        - replace (queries s + S j)%nat with (S (queries s) + j)%nat by lia.
          apply Hpre. lia. }
      rewrite confirmLoop_step.
      destruct (Z.ltb_spec i (ConfirmationRetries options)); [| lia].
      rewrite iteration_keepsPolling by assumption.
      replace (queries s + S k)%nat with (S (queries s) + k)%nat by lia.
      rewrite rounds_succ, app_assoc.
      destruct Hcase as [[Hk Hrun] | (Hk & r & Hv & Hrun)].
      * left. split; [lia | exact Hrun].
      * right. split; [lia |]. exists r. split; [exact Hv | exact Hrun].
    + exists 0%nat. split; [intros j Hj; lia |]. right. split; [lia |].
      rewrite Nat.add_0_r.
      destruct (verdict_exit sig _ Hkeep) as [r Hr].
      exists r. split; [exact Hr |].
      rewrite confirmLoop_step.
      destruct (Z.ltb_spec i (ConfirmationRetries options)); [| lia].
      rewrite iteration_verdict, Hr.
      cbn [rounds repeat concat]. rewrite app_nil_r. reflexivity.
Qed.

(** Every invocation: the send is rejected, or confirmation is skipped,
    or the loop runs as above. *)
Lemma run_cases node tx options :
  (exists err,
     onSend node tx (SendOptions options) = inl err /\
     run node tx options = (Failed (ErrSending err), sent tx options)) \/
  (exists sig,
     onSend node tx (SendOptions options) = inr sig /\
     SkipConfirmationCheck options = true /\
     run node tx options = (Returned sig, sent tx options)) \/
  (exists sig k,
     onSend node tx (SendOptions options) = inr sig /\
     SkipConfirmationCheck options = false /\
     (forall j, (j < k)%nat -> keepsPolling (onStatus node j) = true) /\
     ((Z.of_nat k = Z.max 0 (ConfirmationRetries options) /\
       run node tx options =
       (Failed ErrTimedOut,
        {| queries := k;
           calls := CallSend tx (SendOptions options)
                    :: rounds sig (ConfirmationCheckInterval options) k |}))
      \/
      (Z.of_nat k < ConfirmationRetries options /\
       exists r,
         verdict sig (onStatus node k) = Exit r /\
         run node tx options =
         (r,
          {| queries := S k;
             calls := CallSend tx (SendOptions options)
                      :: rounds sig (ConfirmationCheckInterval options) k
                      ++ [CallStatus sig] |})))).
Proof.
  destruct (onSend node tx (SendOptions options)) as [err | sig] eqn:Hsend.
  { left. exists err. split; [reflexivity |]. apply run_send_failed, Hsend. }
  right.
  destruct (SkipConfirmationCheck options) eqn:Hskip.
  { left. exists sig. repeat split. apply run_skip; assumption. }
  right. rewrite (run_loop _ _ _ _ Hsend Hskip).
  destruct (confirmLoop_cases node options sig
              (Z.to_nat (ConfirmationRetries options - 0)) 0 (sent tx options))
    as (k & Hpre & Hcase); [lia |].
  exists sig, k. repeat split; [exact Hpre |].
  cbn [sent queries calls] in Hcase.
  destruct Hcase as [[Hk Hrun] | (Hk & r & Hv & Hrun)].
  - left. split; [lia | exact Hrun].
  - right. split; [lia |]. exists r. split; [exact Hv | exact Hrun].
Qed.

Lemma polls_sent_rounds tx opts sig d k :
  polls (CallSend tx opts :: rounds sig d k) = k.
Proof.
  change (CallSend tx opts :: rounds sig d k)
    with ([CallSend tx opts] ++ rounds sig d k).
  rewrite polls_app, polls_rounds. reflexivity.
Qed.

Lemma polls_sent_rounds_status tx opts sig d k :
  polls (CallSend tx opts :: rounds sig d k ++ [CallStatus sig]) = S k.
Proof.
  change (CallSend tx opts :: rounds sig d k ++ [CallStatus sig])
    with ([CallSend tx opts] ++ rounds sig d k ++ [CallStatus sig]).
  rewrite !polls_app, polls_rounds. cbn. lia.
Qed.

Lemma run_timeout_intro node tx options sig k :
  onSend node tx (SendOptions options) = inr sig ->
  SkipConfirmationCheck options = false ->
  (forall j, (j < k)%nat -> keepsPolling (onStatus node j) = true) ->
  Z.of_nat k = Z.max 0 (ConfirmationRetries options) ->
  run node tx options =
  (Failed ErrTimedOut,
   {| queries := k;
      calls := CallSend tx (SendOptions options)
               :: rounds sig (ConfirmationCheckInterval options) k |}).
Proof.
  intros Hsend Hskip Hpre Hk.
  rewrite (run_attempt node tx options sig k Hsend Hskip) by (auto; lia).
  apply confirmLoop_exhausted. lia.
Qed.

Lemma run_exit_intro node tx options sig k r :
  onSend node tx (SendOptions options) = inr sig ->
  SkipConfirmationCheck options = false ->
  (forall j, (j < k)%nat -> keepsPolling (onStatus node j) = true) ->
  Z.of_nat k < ConfirmationRetries options ->
  verdict sig (onStatus node k) = Exit r ->
  run node tx options =
  (r,
   {| queries := S k;
      calls := CallSend tx (SendOptions options)
               :: rounds sig (ConfirmationCheckInterval options) k
               ++ [CallStatus sig] |}).
Proof.
  intros Hsend Hskip Hpre Hk Hv.
  rewrite (run_attempt node tx options sig k Hsend Hskip) by (auto; lia).
  rewrite confirmLoop_step.
  destruct (Z.ltb_spec (Z.of_nat k) (ConfirmationRetries options)); [| lia].
  rewrite iteration_verdict. cbn [queries calls]. rewrite Hv. reflexivity.
Qed.

Lemma verdict_returned sig a sig' :
  verdict sig a = Exit (Returned sig') ->
  sig' = sig /\
  exists res st rest,
    a = inr res /\ Value res = Some st :: rest /\ Err st = None /\
    string_ge (ConfirmationStatus st) ConfirmationStatusFinalized = true.
Proof.
  unfold verdict. destruct a as [e | res]; [discriminate |].
  destruct (Value res) as [| [st |] rest] eqn:Hv; [discriminate | | discriminate].
  destruct (Err st) eqn:He; [discriminate |].
  destruct (string_ge _ _) eqn:Hc; [| discriminate].
  intros [= <-]. split; [reflexivity |]. exists res, st, rest. auto.
Qed.

Lemma verdict_not_timeout sig a : verdict sig a <> Exit (Failed ErrTimedOut).
Proof.
  unfold verdict. destruct a as [e | res]; [discriminate |].
  destruct (Value res) as [| [st |] rest]; [discriminate | | discriminate].
  destruct (Err st); [discriminate |].
  destruct (string_ge _ _); discriminate.
Qed.

(** X1.  No invocation makes more status queries than
    max(0, ConfirmationRetries). *)
Theorem polls_never_exceed_the_budget node tx options :
  Z.of_nat (pollCount node tx options) <= Z.max 0 (ConfirmationRetries options).
Proof.
  unfold pollCount, trace.
  destruct (run_cases node tx options)
    as [(err & _ & ->) | [(sig & _ & _ & ->)
       | (sig & k & _ & _ & _ & [[Hk ->] | (Hk & r & _ & ->)])]];
    cbn [snd calls sent].
  - cbn. lia.
  - cbn. lia.
  - rewrite polls_sent_rounds. lia.
  - rewrite polls_sent_rounds_status. lia.
Qed.

(** X2.  If the status query of attempt [k] takes place and the query
    itself fails, the call ends with the status error that wraps the
    cause, and attempt [k] was the last poll. *)
Theorem status_query_failure_ends_the_call node tx options k err :
  (1 <= k <= pollCount node tx options)%nat ->
  onStatus node (k - 1) = inl err ->
  outcome node tx options = Failed (ErrGettingStatus err) /\
  pollCount node tx options = k.
Proof.
  intros Hk Ha.
  destruct (run_at_attempt _ _ _ _ Hk) as (sig & Hsend & Hrun).
  rewrite (iteration_rpc_error node options sig _ err) in Hrun by assumption.
  unfold pollCount, trace, outcome. rewrite Hrun. cbn [fst snd calls app].
  split; [reflexivity |]. rewrite polls_sent_rounds_status. lia.
Qed.

Lemma status_query_failure_ends_the_call_witness :
  let node := scripted "sig" [unknown; inl "connection reset"; statusAt "finalized"] in
  outcome node "tx" exampleOptions = Failed (ErrGettingStatus "connection reset") /\
  pollCount node "tx" exampleOptions = 2%nat.
Proof.
  cbv zeta.
  apply (status_query_failure_ends_the_call
           (scripted "sig" [unknown; inl "connection reset"; statusAt "finalized"])
           "tx" exampleOptions 2 "connection reset").
  - vm_compute. lia.
  - reflexivity.
Defined.

(** X3.  If the status query of attempt [k] takes place and is answered
    with a list without entries, indexing [status.Value[0]] panics:
    the call returns nothing, and attempt [k] was the last poll. *)
Theorem empty_status_list_panics node tx options k res :
  (1 <= k <= pollCount node tx options)%nat ->
  onStatus node (k - 1) = inr res ->
  Value res = [] ->
  outcome node tx options = Panicked /\
  pollCount node tx options = k.
Proof.
  intros Hk Ha Hv.
  destruct (run_at_attempt _ _ _ _ Hk) as (sig & Hsend & Hrun).
  rewrite iteration_verdict in Hrun. cbn [queries calls] in Hrun.
  unfold verdict in Hrun. rewrite Ha, Hv in Hrun.
  unfold pollCount, trace, outcome. rewrite Hrun. cbn [fst snd calls app].
  split; [reflexivity |]. rewrite polls_sent_rounds_status. lia.
Qed.

Lemma empty_status_list_panics_witness :
  let node := scripted "sig" [unknown; noEntries] in
  outcome node "tx" exampleOptions = Panicked /\
  pollCount node "tx" exampleOptions = 2%nat.
Proof.
  cbv zeta.
  eapply (empty_status_list_panics (scripted "sig" [unknown; noEntries])
            "tx" exampleOptions 2).
  - vm_compute. lia.
  - reflexivity.
  - reflexivity.
Defined.

(** X4.  The calls of every invocation are the send, then a number of
    rounds of one status query followed by one sleep of
    ConfirmationCheckInterval, then at most one last status query;
    every status query asks for the signature the send returned.  A
    call that ends in the time-out ends with whole rounds; a call that
    a status query decided, with any other outcome, ends with that
    query and no sleep after it; a rejected send and a skipped
    confirmation make the send the only call. *)
Theorem calls_are_send_then_rounds node tx options :
  (exists err,
     onSend node tx (SendOptions options) = inl err /\
     outcome node tx options = Failed (ErrSending err) /\
     trace node tx options = [CallSend tx (SendOptions options)]) \/
  (exists sig,
     onSend node tx (SendOptions options) = inr sig /\
     ((SkipConfirmationCheck options = true /\
       outcome node tx options = Returned sig /\
       trace node tx options = [CallSend tx (SendOptions options)]) \/
      (SkipConfirmationCheck options = false /\
       exists m,
         (outcome node tx options = Failed ErrTimedOut /\
          trace node tx options =
            CallSend tx (SendOptions options)
            :: rounds sig (ConfirmationCheckInterval options) m) \/
         (outcome node tx options <> Failed ErrTimedOut /\
          trace node tx options =
            CallSend tx (SendOptions options)
            :: rounds sig (ConfirmationCheckInterval options) m
            ++ [CallStatus sig])))).
Proof.
  unfold trace, outcome.
  destruct (run_cases node tx options)
    as [(err & Hsend & ->) | [(sig & Hsend & Hskip & ->)
       | (sig & k & Hsend & Hskip & _ & [[Hk ->] | (Hk & r & Hv & ->)])]];
    cbn [fst snd calls sent].
  - left. exists err. repeat split. exact Hsend.
  - right. exists sig. split; [exact Hsend |]. left. repeat split. exact Hskip.
  - right. exists sig. split; [exact Hsend |]. right. split; [exact Hskip |].
    exists k. left. split; reflexivity.
  - right. exists sig. split; [exact Hsend |]. right. split; [exact Hskip |].
    exists k. right. split; [| reflexivity].
    intros ->. exact (verdict_not_timeout _ _ Hv).
Qed.

(** When a signature comes back: confirmation was skipped, or the
    status query that decided was answered with a passing status. *)
Lemma run_returned node tx options sig :
  fst (run node tx options) = Returned sig ->
  onSend node tx (SendOptions options) = inr sig /\
  ((SkipConfirmationCheck options = true /\
    calls (snd (run node tx options)) = [CallSend tx (SendOptions options)]) \/
   (SkipConfirmationCheck options = false /\
    exists k res st rest,
      polls (calls (snd (run node tx options))) = S k /\
      onStatus node k = inr res /\
      Value res = Some st :: rest /\
      Err st = None /\
      string_ge (ConfirmationStatus st) ConfirmationStatusFinalized = true)).
Proof.
  destruct (run_cases node tx options)
    as [(err & Hsend & ->) | [(sig' & Hsend & Hskip & ->)
       | (sig' & k & Hsend & Hskip & _ & [[Hk ->] | (Hk & r & Hv & ->)])]];
    cbn [fst snd calls sent]; intros Hret; try discriminate.
  - injection Hret as <-. split; [exact Hsend |]. left. split; [exact Hskip | reflexivity].
  - subst r. apply verdict_returned in Hv as (-> & res & st & rest & Ha & Hval & He & Hc).
    split; [exact Hsend |]. right. split; [exact Hskip |].
    exists k, res, st, rest. rewrite polls_sent_rounds_status. auto.
Qed.

(** X5.  The call returns a signature only if it is the one the send
    returned and either confirmation is skipped, or the last status
    query was answered with a status that carries no error and passes
    the comparison of line 288. *)
Theorem signature_only_after_confirmation node tx options sig :
  outcome node tx options = Returned sig ->
  onSend node tx (SendOptions options) = inr sig /\
  ((SkipConfirmationCheck options = true /\ pollCount node tx options = 0%nat) \/
   (SkipConfirmationCheck options = false /\
    exists res st rest,
      (1 <= pollCount node tx options)%nat /\
      onStatus node (pollCount node tx options - 1) = inr res /\
      Value res = Some st :: rest /\
      Err st = None /\
      string_ge (ConfirmationStatus st) ConfirmationStatusFinalized = true)).
Proof.
  intros Hret. unfold pollCount, trace.
  destruct (run_returned node tx options sig Hret)
    as [Hsend [[Hskip Hcalls] | (Hskip & k & res & st & rest & Hpolls & Hrest)]].
  - split; [exact Hsend |]. left. rewrite Hcalls. split; [exact Hskip | reflexivity].
  - split; [exact Hsend |]. right. split; [exact Hskip |].
    exists res, st, rest. rewrite Hpolls.
    replace (S k - 1)%nat with k by lia.
    split; [lia | exact Hrest].
Qed.

Lemma signature_only_after_confirmation_witness :
  let node := scripted "sig" [statusAt "confirmed"; statusAt "finalized"] in
  let options := threeRetries CommitmentFinalized in
  onSend node "tx" (SendOptions options) = inr "sig" /\
  ((SkipConfirmationCheck options = true /\ pollCount node "tx" options = 0%nat) \/
   (SkipConfirmationCheck options = false /\
    exists res st rest,
      (1 <= pollCount node "tx" options)%nat /\
      onStatus node (pollCount node "tx" options - 1) = inr res /\
      Value res = Some st :: rest /\
      Err st = None /\
      string_ge (ConfirmationStatus st) ConfirmationStatusFinalized = true)).
Proof.
  cbv zeta.
  apply (signature_only_after_confirmation
           (scripted "sig" [statusAt "confirmed"; statusAt "finalized"])
           "tx" (threeRetries CommitmentFinalized) "sig").
  reflexivity.
Defined.

(** X6.  The call ends in the time-out only if the send succeeded,
    confirmation is not skipped, max(0, ConfirmationRetries) status
    queries were made, and every one of them was answered with an
    unknown signature or with an error-free status that fails the
    comparison of the loop. *)
Theorem timeout_only_after_the_budget node tx options :
  outcome node tx options = Failed ErrTimedOut ->
  (exists sig, onSend node tx (SendOptions options) = inr sig) /\
  SkipConfirmationCheck options = false /\
  Z.of_nat (pollCount node tx options) = Z.max 0 (ConfirmationRetries options) /\
  (forall j, (j < pollCount node tx options)%nat ->
     keepsPolling (onStatus node j) = true).
Proof.
  unfold pollCount, trace, outcome.
  destruct (run_cases node tx options)
    as [(err & Hsend & ->) | [(sig' & Hsend & Hskip & ->)
       | (sig' & k & Hsend & Hskip & Hpre & [[Hk ->] | (Hk & r & Hv & ->)])]];
    cbn [fst snd calls sent]; intros Hret; try discriminate.
  - rewrite polls_sent_rounds. repeat split; eauto.
  - subst r. exfalso. exact (verdict_not_timeout _ _ Hv).
Qed.

Lemma timeout_only_after_the_budget_witness :
  let node := steady "sig" unknown in
  let options := threeRetries CommitmentFinalized in
  (exists sig, onSend node "tx" (SendOptions options) = inr sig) /\
  SkipConfirmationCheck options = false /\
  Z.of_nat (pollCount node "tx" options) = Z.max 0 (ConfirmationRetries options) /\
  (forall j, (j < pollCount node "tx" options)%nat ->
     keepsPolling (onStatus node j) = true).
Proof.
  cbv zeta.
  apply (timeout_only_after_the_budget (steady "sig" unknown) "tx"
           (threeRetries CommitmentFinalized)).
  reflexivity.
Defined.

(** X7.  The call reads the answer to the send and the answers to the
    status queries within the budget, nothing else of the node: two
    nodes that agree on these give the same outcome and the same
    calls. *)
Theorem answers_beyond_the_budget_are_not_read node node' tx options :
  onSend node tx (SendOptions options) = onSend node' tx (SendOptions options) ->
  (forall j, Z.of_nat j < ConfirmationRetries options ->
     onStatus node j = onStatus node' j) ->
  run node tx options = run node' tx options.
Proof.
  intros Hsame Hagree.
  destruct (run_cases node tx options)
    as [(err & Hsend & ->) | [(sig & Hsend & Hskip & ->)
       | (sig & k & Hsend & Hskip & Hpre & [[Hk ->] | (Hk & r & Hv & ->)])]];
    rewrite Hsame in Hsend; symmetry.
  - apply run_send_failed, Hsend.
  - apply run_skip; assumption.
  - apply run_timeout_intro; auto.
    intros j Hj. rewrite <- Hagree by lia. apply Hpre, Hj.
  - apply run_exit_intro; auto.
    + intros j Hj. rewrite <- Hagree by lia. apply Hpre, Hj.
    + rewrite <- Hagree by lia. exact Hv.
Qed.

Lemma answers_beyond_the_budget_are_not_read_witness :
  let options := threeRetries CommitmentFinalized in
  run (scripted "sig" [unknown; unknown; unknown; statusAt "finalized"]) "tx" options =
  run (steady "sig" unknown) "tx" options.
Proof.
  cbv zeta.
  apply (answers_beyond_the_budget_are_not_read
           (scripted "sig" [unknown; unknown; unknown; statusAt "finalized"])
           (steady "sig" unknown) "tx" (threeRetries CommitmentFinalized)).
  - reflexivity.
  - intros [| [| [| j]]] Hj; try reflexivity.
    cbn in Hj. lia.
Defined.

(** X8.  A call that did not end in the time-out ends the same way,
    after the same calls, under every larger ConfirmationRetries. *)
Theorem larger_budget_keeps_a_decided_outcome node tx options n' :
  outcome node tx options <> Failed ErrTimedOut ->
  ConfirmationRetries options <= n' ->
  run node tx (withRetries options n') = run node tx options.
Proof.
  unfold outcome. intros Hdecided Hle.
  destruct (run_cases node tx options)
    as [(err & Hsend & Hrun) | [(sig & Hsend & Hskip & Hrun)
       | (sig & k & Hsend & Hskip & Hpre & [[Hk Hrun] | (Hk & r & Hv & Hrun)])]];
    rewrite Hrun in *.
  - apply (run_send_failed node tx (withRetries options n')), Hsend.
  - apply (run_skip node tx (withRetries options n')); assumption.
  - cbn [fst] in Hdecided. congruence.
  - apply (run_exit_intro node tx (withRetries options n')); auto.
    cbn [withRetries ConfirmationRetries]. lia.
Qed.

Lemma larger_budget_keeps_a_decided_outcome_witness :
  let node := scripted "sig" [unknown; statusAt "finalized"] in
  let options := threeRetries CommitmentFinalized in
  run node "tx" (withRetries options 50) = run node "tx" options.
Proof.
  cbv zeta.
  apply (larger_budget_keeps_a_decided_outcome
           (scripted "sig" [unknown; statusAt "finalized"]) "tx"
           (threeRetries CommitmentFinalized) 50).
  - vm_compute. discriminate.
  - vm_compute. discriminate.
Defined.

(** X9.  ConfirmationCheckInterval changes the sleeps and nothing
    else: under any other interval the call ends the same way after
    the same number of status queries. *)
Theorem interval_only_changes_the_sleeps node tx options d :
  outcome node tx (withInterval options d) = outcome node tx options /\
  pollCount node tx (withInterval options d) = pollCount node tx options.
Proof.
  unfold pollCount, trace, outcome.
  destruct (run_cases node tx options)
    as [(err & Hsend & ->) | [(sig & Hsend & Hskip & ->)
       | (sig & k & Hsend & Hskip & Hpre & [[Hk ->] | (Hk & r & Hv & ->)])]].
  - rewrite (run_send_failed node tx (withInterval options d) err Hsend).
    split; reflexivity.
  - rewrite (run_skip node tx (withInterval options d) sig Hsend Hskip).
    split; reflexivity.
  - rewrite (run_timeout_intro node tx (withInterval options d) sig k)
      by assumption.
    cbn [fst snd calls]. rewrite !polls_sent_rounds. split; reflexivity.
  - rewrite (run_exit_intro node tx (withInterval options d) sig k r)
      by assumption.
    cbn [fst snd calls]. rewrite !polls_sent_rounds_status. split; reflexivity.
Qed.

(** ** More on the query of a swap request *)

Lemma allBytes_append p a b :
  allBytes p (a ++ b)%string = allBytes p a && allBytes p b.
Proof.
  induction a as [| c a IH]; cbn; [reflexivity |].
  rewrite IH, andb_assoc. reflexivity.
Qed.

Lemma escapeByte_query c : allBytes isQueryByte (escapeByte c) = true.
Proof. destruct c as [[] [] [] [] [] [] [] []]; reflexivity. Qed.

Lemma QueryEscape_query s : allBytes isQueryByte (QueryEscape s) = true.
Proof.
  induction s as [| c s IH]; [reflexivity |].
  cbn [QueryEscape]. rewrite allBytes_append, escapeByte_query, IH. reflexivity.
Qed.

Lemma encodePair_query kv : allBytes isQueryByte (encodePair kv) = true.
Proof.
  unfold encodePair. rewrite !allBytes_append, !QueryEscape_query. reflexivity.
Qed.

Lemma joinAmp_query fields :
  allBytes isQueryByte (joinAmp (map encodePair fields)) = true.
Proof.
  induction fields as [| kv fields IH]; [reflexivity |].
  destruct fields as [| kv' fields].
  - apply encodePair_query.
  - change (joinAmp (map encodePair (kv :: kv' :: fields)))
      with (encodePair kv ++ "&" ++ joinAmp (map encodePair (kv' :: fields)))%string.
    rewrite !allBytes_append, encodePair_query, IH. reflexivity.
Qed.

(** X10.  Whatever the tokens, the payer and the text of the amounts
    hold, every byte of the query string is a letter, a digit, one of
    [-_.~], or one of the [%], [+], [=], [&] of the query syntax: the
    request URL needs no further escaping. *)
Theorem query_is_url_safe float64 (Sprintf_f : float64 -> string)
    fromToken toToken fromAmount slippage payer priorityFee forceLegacy :
  allBytes isQueryByte
    (swapQuery float64 Sprintf_f fromToken toToken fromAmount slippage payer
       priorityFee forceLegacy) = true.
Proof.
  rewrite swapQuery_joined. apply joinAmp_query.
Qed.

(** X11.  The query string determines the request: two calls that
    build the same query have the same tokens, payer and legacy flag,
    the same text for the amount and the slippage, and both no
    priority fee or the same text for it. *)
Theorem query_determines_the_request float64 (Sprintf_f : float64 -> string)
    fromToken toToken fromAmount slippage payer priorityFee forceLegacy
    fromToken' toToken' fromAmount' slippage' payer' priorityFee' forceLegacy' :
  swapQuery float64 Sprintf_f fromToken toToken fromAmount slippage payer
    priorityFee forceLegacy =
  swapQuery float64 Sprintf_f fromToken' toToken' fromAmount' slippage' payer'
    priorityFee' forceLegacy' ->
  fromToken = fromToken' /\
  toToken = toToken' /\
  payer = payer' /\
  forceLegacy = forceLegacy' /\
  Sprintf_f fromAmount = Sprintf_f fromAmount' /\
  Sprintf_f slippage = Sprintf_f slippage' /\
  option_map Sprintf_f priorityFee = option_map Sprintf_f priorityFee'.
Proof.
  intros H. apply (f_equal ParseQuery) in H.
  rewrite !swapQuery_joined, !ParseQuery_joined in H.
  destruct priorityFee as [fee |], priorityFee' as [fee' |];
    destruct forceLegacy, forceLegacy';
    cbn in H; inversion H;
    cbn [option_map]; repeat split; congruence.
Qed.

Lemma query_determines_the_request_witness :
  "So11111111111111111111111111111111111111112" =
  "So11111111111111111111111111111111111111112" /\
  "4k3Dyjzvzp8eMZWUXbBCjEvwSkkk59S5iCNLY3QrkX6R" =
  "4k3Dyjzvzp8eMZWUXbBCjEvwSkkk59S5iCNLY3QrkX6R" /\
  "payer" = "payer" /\
  false = false /\
  "0.000100" = "0.000100" /\
  "30.000000" = "30.000000" /\
  option_map (fun x : string => x) (Some "0.000050") =
  option_map (fun x : string => x) (Some "0.000050").
Proof.
  apply (query_determines_the_request string (fun x => x)
           "So11111111111111111111111111111111111111112"
           "4k3Dyjzvzp8eMZWUXbBCjEvwSkkk59S5iCNLY3QrkX6R"
           "0.000100" "30.000000" "payer" (Some "0.000050") false
           "So11111111111111111111111111111111111111112"
           "4k3Dyjzvzp8eMZWUXbBCjEvwSkkk59S5iCNLY3QrkX6R"
           "0.000100" "30.000000" "payer" (Some "0.000050") false).
  reflexivity.
Defined.

(** ** PerformSwap: properties *)

Lemma sends_rounds sig d m : sends (rounds sig d m) = 0%nat.
Proof.
  induction m as [| m IH]; [reflexivity |].
  rewrite rounds_succ, sends_app, IH. reflexivity.
Qed.

Lemma rounds_hold_no_send sig d m tx opts :
  ~ In (CallSend tx opts) (rounds sig d m).
Proof.
  induction m as [| m IH]; [intros [] |].
  rewrite rounds_succ. intros H. apply in_app_or in H as [H | H]; [| auto].
  cbn in H. intuition discriminate.
Qed.

(** The one submission of an invocation. *)
Lemma run_submission node tx options tx' opts :
  In (CallSend tx' opts) (calls (snd (run node tx options))) ->
  tx' = tx /\ opts = SendOptions options.
Proof.
  destruct (run_cases node tx options)
    as [(err & _ & ->) | [(sig & _ & _ & ->)
       | (sig & k & _ & _ & _ & [[Hk ->] | (Hk & r & _ & ->)])]];
    cbn [snd calls sent]; intros [H | H]; try (injection H as <- <-; auto).
  - destruct H.
  - destruct H.
  - exfalso. exact (rounds_hold_no_send _ _ _ _ _ H).
  - exfalso. apply in_app_or in H as [H | H].
    + exact (rounds_hold_no_send _ _ _ _ _ H).
    + cbn in H. intuition discriminate.
Qed.

Lemma run_sends_once node tx options :
  sends (calls (snd (run node tx options))) = 1%nat.
Proof.
  destruct (run_cases node tx options)
    as [(err & _ & ->) | [(sig & _ & _ & ->)
       | (sig & k & _ & _ & _ & [[Hk ->] | (Hk & r & _ & ->)])]];
    cbn [snd calls sent]; try reflexivity.
  - change (CallSend tx (SendOptions options) :: ?l)
      with ([CallSend tx (SendOptions options)] ++ l).
    rewrite sends_app, sends_rounds. reflexivity.
  - change (CallSend tx (SendOptions options) :: ?l)
      with ([CallSend tx (SendOptions options)] ++ l).
    rewrite !sends_app, sends_rounds. reflexivity.
Qed.

Lemma submissions_of_node_calls cs :
  length (filter isSubmission (map CallNode cs)) = sends cs.
Proof.
  unfold sends. induction cs as [| c cs IH]; [reflexivity |].
  destruct c; cbn; rewrite ?IH; reflexivity.
Qed.

Section PerformSwapProperties.

Variable DecodeString : string -> string + string.
Variable TransactionFromDecoder : string -> string + Transaction.
Variable setRecentBlockhash : Transaction -> Hash -> Transaction.
Variable PublicKeyOf : PrivateKey -> PublicKey.
Variable Sign :
  Transaction -> (PublicKey -> option PrivateKey) -> string + Transaction.
Variable SignatureString : Signature -> string.
Variable onBlockhash :
  CommitmentType -> RpcError + option GetLatestBlockhashResult.
Variable node : Node.

Local Abbreviation swap :=
  (PerformSwap DecodeString TransactionFromDecoder setRecentBlockhash
     PublicKeyOf Sign SignatureString onBlockhash node).

(** X12.  Whatever [PerformSwap] submits to the node is the payload of
    the quote, decoded and deserialized, given the blockhash of the
    result the node returned at commitment finalized, and signed
    through the key getter of the tracker; it is submitted with the
    send options of the bundle. *)
Theorem swap_submits_only_the_signed_transaction st swapResponse options tx opts :
  In (CallNode (CallSend tx opts)) (snd (swap st swapResponse options)) ->
  opts = SendOptions options /\
  exists serializedTx decoded result latest,
    DecodeString (Txn swapResponse) = inr serializedTx /\
    TransactionFromDecoder serializedTx = inr decoded /\
    onBlockhash CommitmentFinalized = inr (Some result) /\
    LatestValue result = Some latest /\
    Sign (setRecentBlockhash decoded (Blockhash latest))
      (keyGetter PublicKeyOf st) = inr tx.
Proof.
  unfold PerformSwap.
  destruct (DecodeString (Txn swapResponse)) as [e | serializedTx] eqn:Hbytes;
    [intros [] |].
  destruct (TransactionFromDecoder serializedTx) as [e | decoded] eqn:Hdecoded;
    [intros [] |].
  destruct (onBlockhash CommitmentFinalized) as [e | [result |]] eqn:Hhash;
    [intros [H | []]; discriminate H | | intros [H | []]; discriminate H].
  destruct (LatestValue result) as [latest |] eqn:Hlatest;
    [| intros [H | []]; discriminate H].
  destruct (Sign _ _) as [e | signed] eqn:Hsign;
    [intros [H | []]; discriminate H |].
  destruct (sendAndConfirmTransaction node signed options start)
    as [r s] eqn:Hrun.
  cbn [snd]. intros [H | H]; [discriminate |].
  apply in_map_iff in H as (c & Hc & Hin). injection Hc as ->.
  change (sendAndConfirmTransaction node signed options start)
    with (run node signed options) in Hrun.
  assert (s = snd (run node signed options)) as -> by (rewrite Hrun; reflexivity).
  apply run_submission in Hin as [-> ->].
  split; [reflexivity |]. exists serializedTx, decoded, result, latest. auto.
Qed.

(** X13.  When [PerformSwap] fails, the error tells how far the node
    was involved: a payload that does not decode or deserialize ends
    the call before any request; a failed blockhash request or a
    failed signing ends it after the blockhash request alone; and a
    failure of sending and confirming comes after exactly one
    submission. *)
Theorem swap_failure_tells_what_reached_the_node st swapResponse options e :
  fst (swap st swapResponse options) = SwapFailed e ->
  match e with
  | ErrDecodingTransaction _ | ErrDeserializingTransaction _ =>
      snd (swap st swapResponse options) = []
  | ErrGettingBlockhash _ | ErrSigningTransaction _ =>
      snd (swap st swapResponse options) = [CallBlockhash CommitmentFinalized]
  | ErrSendingAndConfirming _ =>
      length (filter isSubmission (snd (swap st swapResponse options))) = 1%nat
  end.
Proof.
  unfold PerformSwap.
  destruct (DecodeString (Txn swapResponse)) as [e1 | serializedTx];
    [intros [= <-]; reflexivity |].
  destruct (TransactionFromDecoder serializedTx) as [e2 | decoded];
    [intros [= <-]; reflexivity |].
  destruct (onBlockhash CommitmentFinalized) as [e3 | [result |]];
    [intros [= <-]; reflexivity | | discriminate].
  destruct (LatestValue result) as [latest |]; [| discriminate].
  destruct (Sign _ _) as [e4 | signed];
    [intros [= <-]; reflexivity |].
  destruct (sendAndConfirmTransaction node signed options start)
    as [r s] eqn:Hrun.
  change (sendAndConfirmTransaction node signed options start)
    with (run node signed options) in Hrun.
  cbn [fst snd]. destruct r as [sig | err |]; intros [= <-].
  cbn [filter isSubmission]. rewrite submissions_of_node_calls.
  assert (s = snd (run node signed options)) as -> by (rewrite Hrun; reflexivity).
  apply run_sends_once.
Qed.

(** X14.  [PerformSwap] returns a transaction id only if it is the text
    of the signature under which the node accepted the signed
    transaction, and either confirmation is skipped or a status query
    for it was answered with an error-free status that passes the
    comparison of the loop. *)
Theorem swap_id_only_after_confirmation st swapResponse options txid :
  fst (swap st swapResponse options) = Swapped txid ->
  exists signed sig,
    In (CallNode (CallSend signed (SendOptions options)))
       (snd (swap st swapResponse options)) /\
    onSend node signed (SendOptions options) = inr sig /\
    txid = SignatureString sig /\
    (SkipConfirmationCheck options = true \/
     exists k res status rest,
       onStatus node k = inr res /\
       Value res = Some status :: rest /\
       Err status = None /\
       string_ge (ConfirmationStatus status) ConfirmationStatusFinalized = true).
Proof.
  unfold PerformSwap.
  destruct (DecodeString (Txn swapResponse)) as [e1 | serializedTx];
    [discriminate |].
  destruct (TransactionFromDecoder serializedTx) as [e2 | decoded];
    [discriminate |].
  destruct (onBlockhash CommitmentFinalized) as [e3 | [result |]];
    [discriminate | | discriminate].
  destruct (LatestValue result) as [latest |]; [| discriminate].
  destruct (Sign _ _) as [e4 | signed]; [discriminate |].
  destruct (sendAndConfirmTransaction node signed options start)
    as [r s] eqn:Hrun.
  change (sendAndConfirmTransaction node signed options start)
    with (run node signed options) in Hrun.
  cbn [fst snd]. destruct r as [sig | err |]; intros [= <-].
  assert (Hret : fst (run node signed options) = Returned sig)
    by (rewrite Hrun; reflexivity).
  assert (s = snd (run node signed options)) as -> by (rewrite Hrun; reflexivity).
  destruct (run_returned node signed options sig Hret) as [Hsend Hhow].
  exists signed, sig. repeat split; auto.
  - right. apply in_map.
    destruct (run_cases node signed options)
      as [(err & _ & ->) | [(sig' & _ & _ & ->)
         | (sig' & k & _ & _ & _ & [[Hk ->] | (Hk & r & _ & ->)])]];
      left; reflexivity.
  - destruct Hhow as [[Hskip _] | (_ & k & res & status & rest & _ & Hrest)];
      [left; exact Hskip | right; eauto].
Qed.


End PerformSwapProperties.

Lemma swap_submits_only_the_signed_transaction_witness :
  SendOptions exampleOptions = SendOptions exampleOptions /\
  exists serializedTx decoded result latestResult,
    sameBytes "AQID" = inr serializedTx /\
    sameBytes serializedTx = inr decoded /\
    latest "hash" CommitmentFinalized = inr (Some result) /\
    LatestValue result = Some latestResult /\
    signFor "owner" (appendHash decoded (Blockhash latestResult))
      (keyGetter (fun key => key) (NewSolanaTracker "owner" "rpc"))
      = inr "AQID#hash/owner".
Proof.
  apply (swap_submits_only_the_signed_transaction
           sameBytes sameBytes appendHash (fun key => key) (signFor "owner")
           (fun sig => sig) (latest "hash")
           (steady "sig" (statusAt ConfirmationStatusFinalized))
           (NewSolanaTracker "owner" "rpc")
           {| Txn := "AQID"; ForceLegacy := false |} exampleOptions
           "AQID#hash/owner" (SendOptions exampleOptions)).
  vm_compute. right. left. reflexivity.
Defined.

Lemma swap_failure_tells_what_reached_the_node_witness :
  snd (sampleSwap (steady "sig" unknown) (NewSolanaTracker "other" "rpc")
         {| Txn := "AQID"; ForceLegacy := false |} exampleOptions) =
  [CallBlockhash CommitmentFinalized].
Proof.
  apply (swap_failure_tells_what_reached_the_node
           sameBytes sameBytes appendHash (fun key => key) (signFor "owner")
           (fun sig => sig) (latest "hash") (steady "sig" unknown)
           (NewSolanaTracker "other" "rpc")
           {| Txn := "AQID"; ForceLegacy := false |} exampleOptions
           (ErrSigningTransaction "signer key not found")).
  reflexivity.
Defined.

Lemma swap_id_only_after_confirmation_witness :
  let node := scripted "sig" [unknown; statusAt ConfirmationStatusFinalized] in
  exists signed sig,
    In (CallNode (CallSend signed (SendOptions exampleOptions)))
       (snd (sampleSwap node (NewSolanaTracker "owner" "rpc")
               {| Txn := "AQID"; ForceLegacy := false |} exampleOptions)) /\
    onSend node signed (SendOptions exampleOptions) = inr sig /\
    "sig" = (fun sig => sig) sig /\
    (SkipConfirmationCheck exampleOptions = true \/
     exists k res status rest,
       onStatus node k = inr res /\
       Value res = Some status :: rest /\
       Err status = None /\
       string_ge (ConfirmationStatus status) ConfirmationStatusFinalized = true).
Proof.
  cbv zeta.
  apply (swap_id_only_after_confirmation
           sameBytes sameBytes appendHash (fun key => key) (signFor "owner")
           (fun sig => sig) (latest "hash")
           (scripted "sig" [unknown; statusAt ConfirmationStatusFinalized])
           (NewSolanaTracker "owner" "rpc")
           {| Txn := "AQID"; ForceLegacy := false |} exampleOptions "sig").
  reflexivity.
Defined.

